(** * nano-redbox: annotation editor, flattening, edit service, compare view

    A shallow embedding of the TypeScript sources.

    Numbers.  JavaScript numbers that hold pixel coordinates are modelled as
    exact rationals [Q]; counts, indices and bitmap dimensions as [nat], [Z]
    or [N].  Rounding, NaN and the infinities of binary64 are outside the
    model.  NaN and the infinities can only arise from a division by a zero
    scale or a zero container width; the statements about pointer
    positions assume a positive scale or width, as a displayed image and
    its container have.

    State.  Each React component is a record of its [useState] cells; an
    event handler is a function from the state of the render in which it was
    created to the state of the next render.  Nondeterministic inputs
    (pointer positions, the fresh annotation id, the service's answer) are
    arguments. *)

From stdpp Require Import base list strings.
From Stdlib Require Import QArith Qabs Qminmax Qround Lqa ZArith Lia.
From Stdlib Require Import Ascii Sorting.Sorted DecimalString.

Local Open Scope string_scope.
Local Open Scope list_scope.

(** ** JavaScript helpers *)

Module Js.

(** A thrown [Error] carries a message; a promise either resolves or
    rejects. *)
Inductive Result (A : Type) : Type :=
| Ok (a : A)
| Throw (message : string).
Arguments Ok {A} a.
Arguments Throw {A} message.

Definition bind {A B} (r : Result A) (k : A → Result B) : Result B :=
  match r with
  | Ok a => k a
  | Throw m => Throw m
  end.

(** Truthiness of a string, of a possibly missing string, of a number. *)
Definition truthy (s : string) : bool :=
  match s with
  | EmptyString => false
  | String _ _ => true
  end.

Definition truthy_opt (o : option string) : bool :=
  match o with
  | Some s => truthy s
  | None => false
  end.

Definition truthy_num (q : Q) : bool := negb (Qeq_bool q 0).

(** [a || b] on strings. *)
Definition or_else (a : option string) (b : string) : string :=
  match a with
  | Some s => if truthy s then s else b
  | None => b
  end.

(** [a > b] and [a < b] on numbers. *)
Definition gt (a b : Q) : bool := negb (Qle_bool a b).
Definition lt (a b : Q) : bool := negb (Qle_bool b a).
Definition ge (a b : Q) : bool := Qle_bool b a.
Definition le (a b : Q) : bool := Qle_bool a b.

(** [s.split(sep)] for a one-character separator: never empty. *)
Fixpoint split_on (sep : ascii) (s : string) : list string :=
  match s with
  | EmptyString => [EmptyString]
  | String c rest =>
      if Ascii.eqb c sep then EmptyString :: split_on sep rest
      else match split_on sep rest with
           | [] => [String c EmptyString]
           | w :: ws => String c w :: ws
           end
  end.

(** [Array.prototype.sort(comparefn)]: a stable sort; the comparator is
    called on the values collected before sorting starts, so an array
    that the comparator reads is still in its original order.  [x] is
    placed before the first [y] with [comparefn x y <= 0]. *)
Section Sort.
Context {A : Type} (comparefn : A → A → Z).

Fixpoint insert (x : A) (l : list A) : list A :=
  match l with
  | [] => [x]
  | y :: l' =>
      if (comparefn x y <=? 0)%Z then x :: y :: l'
      else y :: insert x l'
  end.

Fixpoint sort (l : list A) : list A :=
  match l with
  | [] => []
  | x :: l' => insert x (sort l')
  end.
End Sort.

(** [arr.pop()] returns the last element, [undefined] on an empty array. *)
Definition pop {A} (l : list A) : option A := last l.

(** Decimal rendering of a non-negative integer in a template literal. *)
Definition show (n : N) : string := NilZero.string_of_uint (N.to_uint n).

End Js.

(** ** types.ts *)

Inductive Tool := SelectTool | RectTool | TextTool.

Inductive AnnotationColor := red | yellow | cyan.

Record Annotation := {
  id : string;
  x : Q;
  y : Q;
  width : Q;
  height : Q;
  text : string;
  color : AnnotationColor
}.

Record Point := { px : Q; py : Q }.

#[global] Instance AnnotationColor_eq_dec : EqDecision AnnotationColor.
Proof. solve_decision. Defined.

(** The string value of a color, as it appears in templates. *)
Definition color_name (c : AnnotationColor) : string :=
  match c with
  | red => "red"
  | yellow => "yellow"
  | cyan => "cyan"
  end.

Definition color_eqb (a b : AnnotationColor) : bool :=
  match a, b with
  | red, red | yellow, yellow | cyan, cyan => true
  | _, _ => false
  end.

(** ** constants.ts *)

Definition COLOR_MAP (c : AnnotationColor) : string :=
  match c with
  | red => "#FF3B30"
  | yellow => "#FFCC00"
  | cyan => "#5AC8FA"
  end.

Definition DEFAULT_INSTRUCTION_TEMPLATE (color : string) : string :=
  "Read and interpret all " +:+ color +:+
  " text annotations within the image. For each annotation, apply the requested modification only to the corresponding highlighted area. Do not alter or modify any other part of the image. Ensure that all edits blend naturally and look realistic, preserving original lighting, shadows, and textures. After applying all modifications, remove every "
  +:+ color +:+ " text annotation and its corresponding " +:+ color +:+
  " box so that no editing marks remain visible in the final image.".

Definition CLEAN_UP_INSTRUCTION (color : string) : string :=
  "Remove any remaining " +:+ color +:+ " text and " +:+ color +:+
  " boxes without changing image content.".

Definition MAX_IMAGE_DIMENSION : N := 4096.
Definition STROKE_WIDTH : Q := 3.

(** ** components/Editor.tsx *)

Module Editor.

Inductive DragMode := move | resize_se.

(** The in-progress rectangle: the [x], [y], [width] and [height] fields of
    a [Partial<Annotation>]; the code never stores any other field. *)
Record Rect := { rx : Q; ry : Q; rwidth : Q; rheight : Q }.

(** What the handlers read from the DOM: whether both refs are attached,
    the container's bounding rectangle and the image's displayed and
    natural widths. *)
Record Viewport := {
  refs_ready : bool;
  rect_left : Q;
  rect_top : Q;
  img_width : Q;
  img_naturalWidth : Q
}.

Record MouseEvent := { clientX : Q; clientY : Q }.

Record State := {
  annotations : list Annotation;
  tool : Tool;
  selectedId : option string;
  activeColor : AnnotationColor;
  history : list (list Annotation);
  historyIndex : nat;
  isDrawing : bool;
  startPoint : option Point;
  currentRect : option Rect;
  dragMode : option DragMode;
  dragOffset : option Point
}.

(** The state of a freshly mounted editor; [annotations] is a prop. *)
Definition initial (anns : list Annotation) : State :=
  {| annotations := anns; tool := RectTool; selectedId := None;
     activeColor := red; history := [[]]; historyIndex := 0;
     isDrawing := false; startPoint := None; currentRect := None;
     dragMode := None; dragOffset := None |}.

(** State setters. *)
Definition setAnnotations (v : list Annotation) (s : State) : State :=
  {| annotations := v; tool := tool s; selectedId := selectedId s;
     activeColor := activeColor s; history := history s;
     historyIndex := historyIndex s; isDrawing := isDrawing s;
     startPoint := startPoint s; currentRect := currentRect s;
     dragMode := dragMode s; dragOffset := dragOffset s |}.

Definition setTool (v : Tool) (s : State) : State :=
  {| annotations := annotations s; tool := v; selectedId := selectedId s;
     activeColor := activeColor s; history := history s;
     historyIndex := historyIndex s; isDrawing := isDrawing s;
     startPoint := startPoint s; currentRect := currentRect s;
     dragMode := dragMode s; dragOffset := dragOffset s |}.

Definition setSelectedId (v : option string) (s : State) : State :=
  {| annotations := annotations s; tool := tool s; selectedId := v;
     activeColor := activeColor s; history := history s;
     historyIndex := historyIndex s; isDrawing := isDrawing s;
     startPoint := startPoint s; currentRect := currentRect s;
     dragMode := dragMode s; dragOffset := dragOffset s |}.

Definition setActiveColor (v : AnnotationColor) (s : State) : State :=
  {| annotations := annotations s; tool := tool s;
     selectedId := selectedId s; activeColor := v; history := history s;
     historyIndex := historyIndex s; isDrawing := isDrawing s;
     startPoint := startPoint s; currentRect := currentRect s;
     dragMode := dragMode s; dragOffset := dragOffset s |}.

Definition setHistory (v : list (list Annotation)) (s : State) : State :=
  {| annotations := annotations s; tool := tool s;
     selectedId := selectedId s; activeColor := activeColor s;
     history := v; historyIndex := historyIndex s;
     isDrawing := isDrawing s; startPoint := startPoint s;
     currentRect := currentRect s; dragMode := dragMode s;
     dragOffset := dragOffset s |}.

Definition setHistoryIndex (v : nat) (s : State) : State :=
  {| annotations := annotations s; tool := tool s;
     selectedId := selectedId s; activeColor := activeColor s;
     history := history s; historyIndex := v; isDrawing := isDrawing s;
     startPoint := startPoint s; currentRect := currentRect s;
     dragMode := dragMode s; dragOffset := dragOffset s |}.

Definition setIsDrawing (v : bool) (s : State) : State :=
  {| annotations := annotations s; tool := tool s;
     selectedId := selectedId s; activeColor := activeColor s;
     history := history s; historyIndex := historyIndex s; isDrawing := v;
     startPoint := startPoint s; currentRect := currentRect s;
     dragMode := dragMode s; dragOffset := dragOffset s |}.

Definition setStartPoint (v : option Point) (s : State) : State :=
  {| annotations := annotations s; tool := tool s;
     selectedId := selectedId s; activeColor := activeColor s;
     history := history s; historyIndex := historyIndex s;
     isDrawing := isDrawing s; startPoint := v;
     currentRect := currentRect s; dragMode := dragMode s;
     dragOffset := dragOffset s |}.

Definition setCurrentRect (v : option Rect) (s : State) : State :=
  {| annotations := annotations s; tool := tool s;
     selectedId := selectedId s; activeColor := activeColor s;
     history := history s; historyIndex := historyIndex s;
     isDrawing := isDrawing s; startPoint := startPoint s;
     currentRect := v; dragMode := dragMode s;
     dragOffset := dragOffset s |}.

Definition setDragMode (v : option DragMode) (s : State) : State :=
  {| annotations := annotations s; tool := tool s;
     selectedId := selectedId s; activeColor := activeColor s;
     history := history s; historyIndex := historyIndex s;
     isDrawing := isDrawing s; startPoint := startPoint s;
     currentRect := currentRect s; dragMode := v;
     dragOffset := dragOffset s |}.

Definition setDragOffset (v : option Point) (s : State) : State :=
  {| annotations := annotations s; tool := tool s;
     selectedId := selectedId s; activeColor := activeColor s;
     history := history s; historyIndex := historyIndex s;
     isDrawing := isDrawing s; startPoint := startPoint s;
     currentRect := currentRect s; dragMode := dragMode s;
     dragOffset := v |}.

(** [a.id === selectedId] *)
Definition is_selected (sel : option string) (a : Annotation) : bool :=
  match sel with
  | Some i => String.eqb (id a) i
  | None => false
  end.

(** *** History *)

Definition updateAnnotationsWithHistory
    (newAnnotations : list Annotation) (s : State) : State :=
  let newHistory := take (historyIndex s + 1) (history s) ++ [newAnnotations] in
  setAnnotations newAnnotations
    (setHistoryIndex (length newHistory - 1)
       (setHistory newHistory s)).

(** [history[i]] is [undefined] past the end; storing it as the annotation
    list leaves no editor state to continue from, hence [None]. *)
Definition undo (s : State) : option State :=
  if (0 <? historyIndex s)%nat then
    snapshot ← history s !! (historyIndex s - 1)%nat;
    Some (setSelectedId None
            (setAnnotations snapshot
               (setHistoryIndex (historyIndex s - 1) s)))
  else Some s.

Definition redo (s : State) : option State :=
  if (Z.of_nat (historyIndex s) <? Z.of_nat (length (history s)) - 1)%Z then
    snapshot ← history s !! (historyIndex s + 1)%nat;
    Some (setSelectedId None
            (setAnnotations snapshot
               (setHistoryIndex (historyIndex s + 1) s)))
  else Some s.

Definition deleteSelected (s : State) : State :=
  if Js.truthy_opt (selectedId s) then
    let next := List.filter (λ a, negb (is_selected (selectedId s) a)) (annotations s) in
    setSelectedId None (updateAnnotationsWithHistory next s)
  else s.

(** *** Pointer handlers *)

Definition getScale (v : Viewport) : Q :=
  if negb (refs_ready v) then 1
  else img_width v / img_naturalWidth v.

Definition getRelativePointerPosition (e : MouseEvent) (v : Viewport) : Point :=
  {| px := clientX e - rect_left v; py := clientY e - rect_top v |}.

(** The pointer in image coordinates: [imgX], [imgY] of the handlers. *)
Definition imgX (v : Viewport) (e : MouseEvent) : Q :=
  px (getRelativePointerPosition e v) / getScale v.
Definition imgY (v : Viewport) (e : MouseEvent) : Q :=
  py (getRelativePointerPosition e v) / getScale v.

Definition contains (ix iy : Q) (a : Annotation) : bool :=
  Js.ge ix (x a) && Js.le ix (x a + width a) &&
  Js.ge iy (y a) && Js.le iy (y a + height a).

Definition on_resize_handle (v : Viewport) (ix iy : Q) (s : State) : bool :=
  if Js.truthy_opt (selectedId s) then
    match List.find (is_selected (selectedId s)) (annotations s) with
    | Some selected =>
        let handleSize := 10 / getScale v in
        let right := x selected + width selected in
        let bottom := y selected + height selected in
        Js.lt (Qabs (ix - right)) handleSize &&
        Js.lt (Qabs (iy - bottom)) handleSize
    | None => false
    end
  else false.

Definition handleMouseDown (v : Viewport) (e : MouseEvent) (s : State) : State :=
  if negb (refs_ready v) then s
  else
    let ix := imgX v e in
    let iy := imgY v e in
    match tool s with
    | SelectTool =>
        if on_resize_handle v ix iy s then
          setIsDrawing true (setDragMode (Some resize_se) s)
        else
          match List.find (contains ix iy) (rev (annotations s)) with
          | Some clicked =>
              setIsDrawing true
                (setDragOffset
                   (Some {| px := ix - x clicked; py := iy - y clicked |})
                   (setDragMode (Some move)
                      (setSelectedId (Some (id clicked)) s)))
          | None => setSelectedId None s
          end
    | RectTool =>
        setCurrentRect
          (Some {| rx := ix; ry := iy; rwidth := 0; rheight := 0 |})
          (setStartPoint (Some {| px := ix; py := iy |})
             (setIsDrawing true (setSelectedId None s)))
    | TextTool => s
    end.

Definition move_to (newX newY : Q) (a : Annotation) : Annotation :=
  {| id := id a; x := newX; y := newY; width := width a;
     height := height a; text := text a; color := color a |}.

Definition resize_to (newW newH : Q) (a : Annotation) : Annotation :=
  {| id := id a; x := x a; y := y a; width := newW; height := newH;
     text := text a; color := color a |}.

Definition with_text (t : string) (a : Annotation) : Annotation :=
  {| id := id a; x := x a; y := y a; width := width a;
     height := height a; text := t; color := color a |}.

(** The [select] branch of [handleMouseMove]. *)
Definition drag_selected (ix iy : Q) (s : State) : State :=
  match dragMode s, dragOffset s with
  | Some move, Some off =>
      let newX := ix - px off in
      let newY := iy - py off in
      setAnnotations
        (map (λ a, if is_selected (selectedId s) a then move_to newX newY a else a)
           (annotations s)) s
  | Some resize_se, _ =>
      match List.find (is_selected (selectedId s)) (annotations s) with
      | Some selected =>
          let newW := Qmax 10 (ix - x selected) in
          let newH := Qmax 10 (iy - y selected) in
          setAnnotations
            (map (λ a, if is_selected (selectedId s) a then resize_to newW newH a else a)
               (annotations s)) s
      | None => s
      end
  | _, _ => s
  end.

(** The rectangle that the [rect] branch of [handleMouseMove] stores. *)
Definition span (start : Point) (ix iy : Q) : Rect :=
  let w := ix - px start in
  let h := iy - py start in
  {| rx := if Js.gt w 0 then px start else ix;
     ry := if Js.gt h 0 then py start else iy;
     rwidth := Qabs w;
     rheight := Qabs h |}.

Definition handleMouseMove (v : Viewport) (e : MouseEvent) (s : State) : State :=
  if negb (isDrawing s) || negb (refs_ready v) then s
  else
    let ix := imgX v e in
    let iy := imgY v e in
    match tool s, startPoint s with
    | RectTool, Some start => setCurrentRect (Some (span start ix iy)) s
    | SelectTool, _ =>
        if Js.truthy_opt (selectedId s) then drag_selected ix iy s else s
    | _, _ => s
    end.

(** The annotation that [handleMouseUp] builds from the drawn rectangle. *)
Definition newAnn (newId : string) (r : Rect) (c : AnnotationColor) : Annotation :=
  {| id := newId; x := rx r; y := ry r; width := rwidth r;
     height := rheight r; text := EmptyString; color := c |}.

(** [tool === 'rect' && currentRect && currentRect.width &&
    currentRect.width > 5] *)
Definition keeps_rect (s : State) : option Rect :=
  match tool s, currentRect s with
  | RectTool, Some r =>
      if Js.truthy_num (rwidth r) && Js.gt (rwidth r) 5 then Some r else None
  | _, _ => None
  end.

(** [newId] is the value of [Math.random().toString(36).substr(2, 9)]. *)
Definition handleMouseUp (newId : string) (s : State) : State :=
  let s1 :=
    if isDrawing s then
      match keeps_rect s with
      | Some r =>
          setTool SelectTool
            (setSelectedId (Some newId)
               (updateAnnotationsWithHistory
                  (annotations s ++ [newAnn newId r (activeColor s)]) s))
      | None =>
          match dragMode s with
          | Some _ => updateAnnotationsWithHistory (annotations s) s
          | None => s
          end
      end
    else s in
  setDragMode None (setCurrentRect None (setStartPoint None (setIsDrawing false s1))).

Definition handleTextChange (i : string) (t : string) (s : State) : State :=
  setAnnotations
    (map (λ a, if String.eqb (id a) i then with_text t a else a) (annotations s)) s.

(** [onBlur] of the note input of the selected annotation. *)
Definition onBlur (s : State) : State :=
  updateAnnotationsWithHistory (annotations s) s.

(** [onClick] of an annotation's box. *)
Definition onClickAnnotation (i : string) (s : State) : State :=
  setTool SelectTool (setSelectedId (Some i) s).

(** *** Key bindings *)

(** [key] is [e.key.toLowerCase()]; [in_text_input] tells whether
    [e.target] is an input or a textarea. *)
Record KeyboardEvent := {
  key : string;
  metaKey : bool;
  ctrlKey : bool;
  shiftKey : bool;
  in_text_input : bool
}.

Definition handleKeyDown (e : KeyboardEvent) (s : State) : option State :=
  if in_text_input e then Some s
  else if String.eqb (key e) "v" then Some (setTool SelectTool s)
  else if String.eqb (key e) "r" then Some (setTool RectTool s)
  else if String.eqb (key e) "t" then Some (setTool TextTool s)
  else if String.eqb (key e) "delete" || String.eqb (key e) "backspace"
    then Some (deleteSelected s)
  else if String.eqb (key e) "z" then
    if (metaKey e || ctrlKey e) && shiftKey e then redo s
    else if metaKey e || ctrlKey e then undo s
    else Some s
  else Some s.

(** *** The editor as a transition system *)

Inductive Event :=
| MouseDown (v : Viewport) (e : MouseEvent)
| MouseMove (v : Viewport) (e : MouseEvent)
| MouseUp (newId : string)
| MouseLeave (newId : string)
| TextChange (i : string) (t : string)
| Blur
| ClickAnnotation (i : string)
| KeyDown (e : KeyboardEvent)
| ClickTool (t : Tool)
| ClickColor (c : AnnotationColor)
| ClickUndo
| ClickRedo
| ClickDelete.

Definition step (ev : Event) (s : State) : option State :=
  match ev with
  | MouseDown v e => Some (handleMouseDown v e s)
  | MouseMove v e => Some (handleMouseMove v e s)
  | MouseUp newId | MouseLeave newId => Some (handleMouseUp newId s)
  | TextChange i t => Some (handleTextChange i t s)
  | Blur => Some (onBlur s)
  | ClickAnnotation i => Some (onClickAnnotation i s)
  | KeyDown e => handleKeyDown e s
  | ClickTool t => Some (setTool t s)
  | ClickColor c => Some (setActiveColor c s)
  | ClickUndo => undo s
  | ClickRedo => redo s
  | ClickDelete => Some (deleteSelected s)
  end.

Fixpoint run (evs : list Event) (s : State) : option State :=
  match evs with
  | [] => Some s
  | ev :: evs' => s' ← step ev s; run evs' s'
  end.

(** A drag with the mouse: pointer-down, pointer-moves, pointer-up. *)
Definition moves (v : Viewport) (es : list MouseEvent) (s : State) : State :=
  fold_left (λ acc e, handleMouseMove v e acc) es s.

Definition drag (v : Viewport) (down : MouseEvent) (es : list MouseEvent)
    (newId : string) (s : State) : State :=
  handleMouseUp newId (moves v es (handleMouseDown v down s)).

End Editor.

(** ** utils/canvas.ts: flattening *)

Module Canvas.

(** A decoded image: [naturalWidth] and [naturalHeight] are the pixel
    dimensions of the bitmap, [iwidth] is [img.width]. *)
Record HTMLImageElement := {
  src : string;
  naturalWidth : N;
  naturalHeight : N;
  iwidth : N
}.

(** What has been painted, with the context attributes in force. *)
Inductive DrawOp :=
| DrawImage (img : HTMLImageElement) (dx dy : Q)
| StrokeRect (strokeStyle : string) (lineWidth : Q) (sx sy sw sh : Q)
| FillText (font fillStyle textBaseline : string) (t : string) (tx ty : Q).

(** A canvas element together with its 2d context. *)
Record HTMLCanvasElement := {
  cwidth : N;
  cheight : N;
  strokeStyle : string;
  lineWidth : Q;
  font : string;
  fillStyle : string;
  textBaseline : string;
  painted : list DrawOp
}.

(** [document.createElement('canvas')] *)
Definition createCanvas : HTMLCanvasElement :=
  {| cwidth := 300; cheight := 150; strokeStyle := "#000000";
     lineWidth := 1; font := "10px sans-serif"; fillStyle := "#000000";
     textBaseline := "alphabetic"; painted := [] |}.

Definition set_width (w : N) (c : HTMLCanvasElement) : HTMLCanvasElement :=
  {| cwidth := w; cheight := cheight c; strokeStyle := strokeStyle c;
     lineWidth := lineWidth c; font := font c; fillStyle := fillStyle c;
     textBaseline := textBaseline c; painted := painted c |}.

Definition set_height (h : N) (c : HTMLCanvasElement) : HTMLCanvasElement :=
  {| cwidth := cwidth c; cheight := h; strokeStyle := strokeStyle c;
     lineWidth := lineWidth c; font := font c; fillStyle := fillStyle c;
     textBaseline := textBaseline c; painted := painted c |}.

Definition set_strokeStyle (v : string) (c : HTMLCanvasElement) : HTMLCanvasElement :=
  {| cwidth := cwidth c; cheight := cheight c; strokeStyle := v;
     lineWidth := lineWidth c; font := font c; fillStyle := fillStyle c;
     textBaseline := textBaseline c; painted := painted c |}.

Definition set_lineWidth (v : Q) (c : HTMLCanvasElement) : HTMLCanvasElement :=
  {| cwidth := cwidth c; cheight := cheight c; strokeStyle := strokeStyle c;
     lineWidth := v; font := font c; fillStyle := fillStyle c;
     textBaseline := textBaseline c; painted := painted c |}.

Definition set_font (v : string) (c : HTMLCanvasElement) : HTMLCanvasElement :=
  {| cwidth := cwidth c; cheight := cheight c; strokeStyle := strokeStyle c;
     lineWidth := lineWidth c; font := v; fillStyle := fillStyle c;
     textBaseline := textBaseline c; painted := painted c |}.

Definition set_fillStyle (v : string) (c : HTMLCanvasElement) : HTMLCanvasElement :=
  {| cwidth := cwidth c; cheight := cheight c; strokeStyle := strokeStyle c;
     lineWidth := lineWidth c; font := font c; fillStyle := v;
     textBaseline := textBaseline c; painted := painted c |}.

Definition set_textBaseline (v : string) (c : HTMLCanvasElement) : HTMLCanvasElement :=
  {| cwidth := cwidth c; cheight := cheight c; strokeStyle := strokeStyle c;
     lineWidth := lineWidth c; font := font c; fillStyle := fillStyle c;
     textBaseline := v; painted := painted c |}.

Definition paint (op : DrawOp) (c : HTMLCanvasElement) : HTMLCanvasElement :=
  {| cwidth := cwidth c; cheight := cheight c; strokeStyle := strokeStyle c;
     lineWidth := lineWidth c; font := font c; fillStyle := fillStyle c;
     textBaseline := textBaseline c; painted := painted c ++ [op] |}.

Definition drawImage (img : HTMLImageElement) (dx dy : Q) c :=
  paint (DrawImage img dx dy) c.
Definition strokeRect (sx sy sw sh : Q) c :=
  paint (StrokeRect (strokeStyle c) (lineWidth c) sx sy sw sh) c.
Definition fillText (t : string) (tx ty : Q) c :=
  paint (FillText (font c) (fillStyle c) (textBaseline c) t tx ty) c.

(** The browser services that flattening relies on. [measureText font t]
    is [ctx.measureText(t).width] under the font [font]. *)
Record Browser := {
  loadImage : string → Js.Result HTMLImageElement;
  has_2d_context : bool;
  measureText : string → string → Q;
  toDataURL : HTMLCanvasElement → string → string
}.

(** The word-wrap loop: [first] is [n = 0]; returns the last line, its
    baseline and the canvas. *)
Fixpoint wrap (b : Browser) (maxWidth tx lineHeight : Q) (first : bool)
    (words : list string) (line : string) (ty : Q) (c : HTMLCanvasElement)
    : string * Q * HTMLCanvasElement :=
  match words with
  | [] => (line, ty, c)
  | w :: rest =>
      let testLine := line +:+ w +:+ " " in
      let testWidth := measureText b (font c) testLine in
      if Js.gt testWidth maxWidth && negb first then
        wrap b maxWidth tx lineHeight false rest (w +:+ " ")
          (ty + lineHeight) (fillText line tx ty c)
      else
        wrap b maxWidth tx lineHeight false rest testLine ty c
  end.

(** The body of [annotations.forEach]. *)
Definition drawAnnotation (b : Browser) (img : HTMLImageElement)
    (c : HTMLCanvasElement) (ann : Annotation) : HTMLCanvasElement :=
  let colour := COLOR_MAP (color ann) in
  let c := set_lineWidth STROKE_WIDTH (set_strokeStyle colour c) in
  let c := strokeRect (x ann) (y ann) (width ann) (height ann) c in
  if Js.truthy (text ann) then
    let fontSize := N.max 16 (iwidth img / 50) in
    let c := set_font ("bold " +:+ Js.show fontSize +:+ "px Inter, sans-serif") c in
    let c := set_textBaseline "top" (set_fillStyle colour c) in
    let words := Js.split_on " " (text ann) in
    let tx := x ann + 5 in
    let maxWidth := width ann - 10 in
    let lineHeight := inject_Z (Z.of_N fontSize) * (12 # 10) in
    let '(line, ty, c) :=
      wrap b maxWidth tx lineHeight true words EmptyString (y ann + 5) c in
    fillText line tx ty c
  else c.

(** The canvas at the moment [toDataURL] is called. *)
Definition flattened (b : Browser) (img : HTMLImageElement)
    (annotations : list Annotation) : HTMLCanvasElement :=
  let canvas := set_height (naturalHeight img)
                  (set_width (naturalWidth img) createCanvas) in
  let canvas := drawImage img 0 0 canvas in
  fold_left (drawAnnotation b img) annotations canvas.

Definition flattenAnnotations (b : Browser) (imageSrc : string)
    (annotations : list Annotation) (mimeType : string) : Js.Result string :=
  Js.bind (loadImage b imageSrc) (λ img,
    if negb (has_2d_context b) then Js.Throw "Could not get canvas context"
    else Js.Ok (toDataURL b (flattened b img annotations) mimeType)).

End Canvas.

(** ** services/gemini.ts *)

Module Gemini.

Record InlineData := { data : option string; mimeType : option string }.
Record Part := { inlineData : option InlineData; text : option string }.
Record Content := { parts : option (list Part) }.
Record Candidate := { content : option Content }.
Record GenerateContentResponse := { candidates : option (list Candidate) }.

Inductive Modality := TEXT | IMAGE | AUDIO.

Record GenerateContentRequest := {
  model : string;
  image_data : string;
  image_mimeType : string;
  prompt_text : string;
  responseModalities : list Modality
}.

(** The remote call: it resolves with a response or rejects; a rejection
    without a message is [Throw] of the empty string. *)
Definition Api := GenerateContentRequest → Js.Result GenerateContentResponse.

(** [response.candidates?.[0]?.content?.parts] *)
Definition first_parts (r : GenerateContentResponse) : option (list Part) :=
  cs ← candidates r; c ← cs !! 0%nat; ct ← content c; parts ct.

(** The [try] block after the call returned. *)
Definition extract (r : GenerateContentResponse) : Js.Result string :=
  match first_parts r with
  | Some (part :: _) =>
      match inlineData part with
      | Some d =>
          if Js.truthy_opt (data d)
          then Js.Ok ("data:image/png;base64," +:+ default EmptyString (data d))
          else Js.Throw "No image generated in response."
      | None => Js.Throw "No image generated in response."
      end
  | _ => Js.Throw "No image generated in response."
  end.

(** The argument of [generateContent]; a data-URL header is removed. *)
Definition request (base64Image prompt mimeType : string) : GenerateContentRequest :=
  let cleanBase64 :=
    Js.or_else (Js.split_on "," base64Image !! 1%nat) base64Image in
  {| model := "gemini-2.5-flash-image";
     image_data := cleanBase64;
     image_mimeType := mimeType;
     prompt_text := prompt;
     responseModalities := [IMAGE] |}.

Definition editImage (apiKey : string) (generateContent : Api)
    (base64Image prompt mimeType : string) : Js.Result string :=
  if negb (Js.truthy apiKey) then
    Js.Throw "API Key not found. Please set the API_KEY environment variable."
  else
    let attempt :=
      Js.bind (generateContent (request base64Image prompt mimeType)) extract in
    match attempt with
    | Js.Ok url => Js.Ok url
    | Js.Throw message =>
        Js.Throw (Js.or_else (Some message) "Failed to process image with Gemini.")
    end.

End Gemini.

(** ** App.tsx *)

Module App.

Inductive Stage := upload | edit | result.

Record State := {
  stage : Stage;
  imageSrc : option string;
  annotations : list Annotation;
  generatedImage : option string;
  isProcessing : bool;
  error : option string
}.

(** [colors.filter(v => v === a).length] *)
Definition occurrences (colors : list AnnotationColor) (a : AnnotationColor) : Z :=
  Z.of_nat (length (List.filter (λ v, color_eqb v a) colors)).

(** [colors.sort((a, b) => count a - count b).pop() || 'red'] *)
Definition dominantColor (annotations : list Annotation) : AnnotationColor :=
  let colors := map color annotations in
  default red
    (Js.pop (Js.sort (λ a b, (occurrences colors a - occurrences colors b)%Z) colors)).

(** One call of the edit service: the image and the instruction sent. *)
Record Call := { sent_image : string; sent_instruction : string }.

(** The part of [generateEdit] that chooses what to send. *)
Definition prepare (flatten : string → list Annotation → Js.Result string)
    (cleanup : bool) (src : string) (s : State) : Js.Result Call :=
  if cleanup && Js.truthy_opt (generatedImage s) then
    Js.Ok {| sent_image := default EmptyString (generatedImage s);
             sent_instruction := CLEAN_UP_INSTRUCTION "red" |}
  else
    let dominant := dominantColor (annotations s) in
    Js.bind (flatten src (annotations s)) (λ inputImageBase64,
      Js.Ok {| sent_image := inputImageBase64;
               sent_instruction :=
                 DEFAULT_INSTRUCTION_TEMPLATE (color_name dominant) |}).

Definition failed (message : string) (s : State) : State :=
  {| stage := stage s; imageSrc := imageSrc s; annotations := annotations s;
     generatedImage := generatedImage s; isProcessing := false;
     error := Some (Js.or_else (Some message)
                      "Something went wrong during generation.") |}.

Definition succeeded (resultBase64 : string) (s : State) : State :=
  {| stage := result; imageSrc := imageSrc s; annotations := annotations s;
     generatedImage := Some resultBase64; isProcessing := false;
     error := None |}.

(** [generateEdit cleanup]: the next state and the calls made to the edit
    service, in order.  [flatten] is [flattenAnnotations] and [editImage]
    is [geminiService.editImage], both with the default MIME type. *)
Definition generateEdit
    (flatten : string → list Annotation → Js.Result string)
    (editImage : string → string → Js.Result string)
    (cleanup : bool) (s : State) : State * list Call :=
  match imageSrc s with
  | Some src =>
      if negb (Js.truthy src) then (s, [])
      else
        match prepare flatten cleanup src s with
        | Js.Ok call =>
            match editImage (sent_image call) (sent_instruction call) with
            | Js.Ok resultBase64 => (succeeded resultBase64 s, [call])
            | Js.Throw message => (failed message s, [call])
            end
        | Js.Throw message => (failed message s, [])
        end
  | None => (s, [])
  end.

End App.

(** ** components/CompareSlider.tsx *)

Module CompareSlider.

(** [containerRef.current.getBoundingClientRect()] *)
Record DOMRect := { left : Q; width : Q }.

(** [handleMove]: the new value of [position]; unchanged while the
    container is not attached. *)
Definition handleMove (container : option DOMRect) (clientX : Q) (position : Q) : Q :=
  match container with
  | None => position
  | Some rect =>
      let x := Qmax 0 (Qmin (clientX - left rect) (width rect)) in
      (x / width rect) * 100
  end.

End CompareSlider.

(** ** utils/canvas.ts: intake of an uploaded file *)

Module Downscale.

(** The state of a promise once nothing is left to run: it resolved, it
    rejected, or nothing will ever settle it. *)
Inductive Promise (A : Type) : Type :=
| Resolved (a : A)
| Rejected (reason : string)
| Pending.
Arguments Resolved {A} a.
Arguments Rejected {A} reason.
Arguments Pending {A}.

(** An uploaded file: [ftype] is [file.type]. *)
Record File := { ftype : string; fname : string }.

(** What the browser does with a file and with the scaled canvas.
    [readAsDataURL] is [None] when the reader fires [onerror] and
    [Some r] when it fires [onload] with [e.target.result = r];
    [width_of] and [height_of] are [img.width] and [img.height];
    [encode c t q] is [canvas.toDataURL(t, q)]. *)
Record ScaledCanvas := {
  swidth : N;
  sheight : N;
  source : Canvas.HTMLImageElement;
  drawn_width : Q;
  drawn_height : Q
}.

Record FileApi := {
  readAsDataURL : File → option (option string);
  width_of : Canvas.HTMLImageElement → N;
  height_of : Canvas.HTMLImageElement → N;
  encode : ScaledCanvas → string → Q → string
}.

(** Assignment of a number to an [unsigned long] attribute: truncation
    towards zero, then reduction modulo 2^32. *)
Definition to_unsigned_long (q : Q) : N :=
  Z.to_N ((Z.quot (Qnum q) (QDen q)) mod 2 ^ 32).

Definition of_N (n : N) : Q := inject_Z (Z.of_N n).

(** The canvas onto which an image is scaled: both sides are multiplied by
    the same factor, the smaller of the two ratios to the maximum. *)
Definition scaled_canvas (f : FileApi) (img : Canvas.HTMLImageElement) : ScaledCanvas :=
  let w := width_of f img in
  let h := height_of f img in
  let scale := Qmin (of_N MAX_IMAGE_DIMENSION / of_N w)
                    (of_N MAX_IMAGE_DIMENSION / of_N h) in
  {| swidth := to_unsigned_long (of_N w * scale);
     sheight := to_unsigned_long (of_N h * scale);
     source := img;
     drawn_width := (of_N w * scale)%Q;
     drawn_height := (of_N h * scale)%Q |}.

(** [downscaleImageIfNeeded].  A rejection of [loadImage] is raised inside
    the asynchronous [onload] callback, where nothing catches it and
    nothing calls [resolve] or [reject]. *)
Definition downscaleImageIfNeeded (b : Canvas.Browser) (f : FileApi)
    (file : File) : Promise string :=
  match readAsDataURL f file with
  | None => Rejected EmptyString
  | Some result =>
      if negb (Js.truthy_opt result) then Rejected "Failed to read file"
      else
        let dataUrl := default EmptyString result in
        match Canvas.loadImage b dataUrl with
        | Js.Throw _ => Pending
        | Js.Ok img =>
            if (width_of f img <=? MAX_IMAGE_DIMENSION)%N &&
               (height_of f img <=? MAX_IMAGE_DIMENSION)%N
            then Resolved dataUrl
            else if negb (Canvas.has_2d_context b)
            then Rejected "No canvas context"
            else Resolved (encode f (scaled_canvas f img) (ftype file) (9 # 10))
        end
  end.

End Downscale.

(** ** App.tsx: file intake and the wiring of the services *)

Module Session.

Definition setError (e : option string) (s : App.State) : App.State :=
  {| App.stage := App.stage s; App.imageSrc := App.imageSrc s;
     App.annotations := App.annotations s;
     App.generatedImage := App.generatedImage s;
     App.isProcessing := App.isProcessing s; App.error := e |}.

(** [handleFile]; [downscale] is [downscaleImageIfNeeded]. *)
Definition handleFile (downscale : Downscale.File → Downscale.Promise string)
    (file : Downscale.File) (s : App.State) : App.State :=
  if negb (String.prefix "image/" (Downscale.ftype file)) then
    setError (Some "Please upload a valid image file.") s
  else
    match downscale file with
    | Downscale.Resolved processedSrc =>
        {| App.stage := App.edit; App.imageSrc := Some processedSrc;
           App.annotations := [];
           App.generatedImage := App.generatedImage s;
           App.isProcessing := App.isProcessing s; App.error := None |}
    | Downscale.Rejected _ =>
        setError (Some "Failed to process image. Please try again.") s
    | Downscale.Pending => setError None s
    end.

(** [handleFile] with the repository's own [downscaleImageIfNeeded]. *)
Definition upload (b : Canvas.Browser) (f : Downscale.FileApi)
    (file : Downscale.File) (s : App.State) : App.State :=
  handleFile (Downscale.downscaleImageIfNeeded b f) file s.

(** [generateEdit] with the repository's own [flattenAnnotations] and
    [geminiService.editImage], both called with their default MIME type. *)
Definition generateEdit (b : Canvas.Browser) (apiKey : string)
    (generateContent : Gemini.Api) (cleanup : bool) (s : App.State)
    : App.State * list App.Call :=
  App.generateEdit
    (λ src anns, Canvas.flattenAnnotations b src anns "image/png")
    (λ image instruction,
       Gemini.editImage apiKey generateContent image instruction "image/png")
    cleanup s.

End Session.

(** ** components/CompareSlider.tsx: the drag of the divider *)

Module Slider.

Record State := { position : Q; isDragging : bool }.

Definition initial : State := {| position := 50; isDragging := false |}.

(** [container] is [containerRef.current], read when the event fires;
    [touches] are the [clientX] of [e.touches], of which the handler reads
    the first (a touch-move always carries one). *)
Inductive Event :=
| MouseDown
| TouchStart
| MouseMove (container : option CompareSlider.DOMRect) (clientX : Q)
| TouchMove (container : option CompareSlider.DOMRect) (clientX : Q)
| MouseUp
| TouchEnd.

Definition onMove (container : option CompareSlider.DOMRect) (clientX : Q)
    (s : State) : State :=
  if negb (isDragging s) then s
  else {| position := CompareSlider.handleMove container clientX (position s);
          isDragging := isDragging s |}.

Definition step (ev : Event) (s : State) : State :=
  match ev with
  | MouseDown | TouchStart => {| position := position s; isDragging := true |}
  | MouseMove container clientX | TouchMove container clientX =>
      onMove container clientX s
  | MouseUp | TouchEnd => {| position := position s; isDragging := false |}
  end.

Definition run (evs : list Event) (s : State) : State :=
  fold_left (λ acc ev, step ev acc) evs s.

End Slider.

(** ** components/Editor.tsx: the overlay *)

Module Overlay.

(** The inline style of an annotation's box, in container pixels: [rx] is
    [left], [ry] is [top], [rwidth] is [width] and [rheight] is
    [height]. *)
Definition style (v : Editor.Viewport) (ann : Annotation) : Editor.Rect :=
  let scale := Editor.getScale v in
  {| Editor.rx := x ann * scale;
     Editor.ry := y ann * scale;
     Editor.rwidth := width ann * scale;
     Editor.rheight := height ann * scale |}.

End Overlay.

(** ** Predicates of the statements *)

(** The cursor is a valid index into the history. *)
Definition wf (s : Editor.State) : Prop :=
  (Editor.historyIndex s < length (Editor.history s))%nat.

(** The cursor points at the displayed annotation list. *)
Definition cursor_shown (s : Editor.State) : Prop :=
  Editor.history s !! Editor.historyIndex s = Some (Editor.annotations s).

(** The pointer of a mouse event in image coordinates. *)
Definition pointer (v : Editor.Viewport) (e : Editor.MouseEvent) : Point :=
  {| px := Editor.imgX v e; py := Editor.imgY v e |}.

(** [r] is the axis-aligned bounding box of the points [a] and [b]. *)
Definition bounding_box (r : Editor.Rect) (a b : Point) : Prop :=
  (Editor.rx r == Qmin (px a) (px b))%Q ∧
  (Editor.ry r == Qmin (py a) (py b))%Q ∧
  (Editor.rx r + Editor.rwidth r == Qmax (px a) (px b))%Q ∧
  (Editor.ry r + Editor.rheight r == Qmax (py a) (py b))%Q.

(** The editor state in the middle of drawing the rectangle [r], started at
    [start] from the state [s]. *)
Definition drawing (start : Point) (r : Editor.Rect) (s : Editor.State)
    : Editor.State :=
  Editor.setCurrentRect (Some r)
    (Editor.setStartPoint (Some start)
       (Editor.setIsDrawing true (Editor.setSelectedId None s))).

(** The editor is in the middle of a resize drag of the annotation [i]. *)
Definition resizing (i : string) (s : Editor.State) : Prop :=
  Editor.isDrawing s = true ∧ Editor.tool s = SelectTool ∧
  Editor.selectedId s = Some i ∧ Js.truthy i = true ∧
  Editor.dragMode s = Some Editor.resize_se.

(** [d] is a dominant color of [colors]: it occurs there, and no color
    occurs more often. *)
Definition dominant (colors : list AnnotationColor) (d : AnnotationColor) : Prop :=
  d ∈ colors ∧
  ∀ c, (App.occurrences colors c ≤ App.occurrences colors d)%Z.

(** The response carries inline image data: some part of some candidate has
    a non-empty [inlineData.data]. *)
Definition has_inline_image (r : Gemini.GenerateContentResponse) : Prop :=
  ∃ cs c ct ps p d dat,
    Gemini.candidates r = Some cs ∧ c ∈ cs ∧
    Gemini.content c = Some ct ∧ Gemini.parts ct = Some ps ∧ p ∈ ps ∧
    Gemini.inlineData p = Some d ∧ Gemini.data d = Some dat ∧
    Js.truthy dat = true.

(** The first part of the first candidate carries the non-empty inline
    data [dat]. *)
Definition first_part_image (r : Gemini.GenerateContentResponse) (dat : string) : Prop :=
  ∃ part rest d,
    Gemini.first_parts r = Some (part :: rest) ∧
    Gemini.inlineData part = Some d ∧ Gemini.data d = Some dat ∧
    Js.truthy dat = true.

(** A response whose first part is text and whose second part is the
    image. *)
Definition text_then_image : Gemini.GenerateContentResponse :=
  {| Gemini.candidates := Some
       [ {| Gemini.content := Some
              {| Gemini.parts := Some
                   [ {| Gemini.inlineData := None;
                        Gemini.text := Some "Here is the edited image." |};
                     {| Gemini.inlineData := Some
                          {| Gemini.data := Some "iVBORw0KGgo=";
                             Gemini.mimeType := Some "image/png" |};
                        Gemini.text := None |} ] |} |} ] |}.

(** The comparator that orders by a key, and the order it sorts into. *)
Definition by_key {A} (sort_key : A → Z) (a b : A) : Z :=
  (sort_key a - sort_key b)%Z.
Definition key_le {A} (sort_key : A → Z) (a b : A) : Prop :=
  (sort_key a ≤ sort_key b)%Z.

(** Two canvases of the same pixel size. *)
Definition same_size (c c' : Canvas.HTMLCanvasElement) : Prop :=
  Canvas.cwidth c' = Canvas.cwidth c ∧ Canvas.cheight c' = Canvas.cheight c.

(** The first snapshot of the history is the empty list. *)
Definition first_snapshot_empty (s : Editor.State) : Prop :=
  Editor.history s !! 0%nat = Some [].

(** While no drag is in progress there is no drag mode, no start point and
    no transient rectangle. *)
Definition idle_cells (s : Editor.State) : Prop :=
  Editor.isDrawing s = false →
  Editor.dragMode s = None ∧ Editor.startPoint s = None ∧
  Editor.currentRect s = None.

(** The viewport of every pointer event of the sequence shows the image at
    a positive scale. *)
Definition displayed (evs : list Editor.Event) : Prop :=
  Forall (λ ev, match ev with
                | Editor.MouseDown v _ | Editor.MouseMove v _ =>
                    (0 < Editor.getScale v)%Q
                | _ => True
                end) evs.

(** An annotation wider than 5 and of non-negative height. *)
Definition large (a : Annotation) : Prop :=
  (5 < width a)%Q ∧ (0 <= height a)%Q.

(** Every displayed annotation, every annotation of a snapshot and the
    transient rectangle respect the size bounds. *)
Definition all_large (s : Editor.State) : Prop :=
  (∀ a, a ∈ Editor.annotations s → large a) ∧
  (∀ snapshot a, snapshot ∈ Editor.history s → a ∈ snapshot → large a) ∧
  (∀ r, Editor.currentRect s = Some r → (0 <= Editor.rheight r)%Q).

(** [b'] is [b] after a move drag of the annotations with the id [i] to the
    position [(nx, ny)]: only the position of those annotations changes. *)
Definition moved_to (i : string) (nx ny : Q) (b b' : Annotation) : Prop :=
  id b' = id b ∧ width b' = width b ∧ height b' = height b ∧
  text b' = text b ∧ color b' = color b ∧
  if String.eqb (id b) i then (x b' == nx)%Q ∧ (y b' == ny)%Q
  else x b' = x b ∧ y b' = y b.

(** [b'] is [b] after the note of the annotations with the id [i] was set
    to [t]: only the text of those annotations changes. *)
Definition retyped (i t : string) (b b' : Annotation) : Prop :=
  id b' = id b ∧ x b' = x b ∧ y b' = y b ∧ width b' = width b ∧
  height b' = height b ∧ color b' = color b ∧
  text b' = if String.eqb (id b) i then t else text b.

(** The cells of a drag in progress. *)
Definition drag_cells (s : Editor.State) :=
  (Editor.isDrawing s, Editor.dragMode s, Editor.startPoint s,
   Editor.currentRect s).

(** The editor state right after the annotation [a] was grabbed with the
    select tool at the image point [(ix, iy)]. *)
Definition grabbed (a : Annotation) (ix iy : Q) (s : Editor.State) : Editor.State :=
  Editor.setIsDrawing true
    (Editor.setDragOffset (Some {| px := ix - x a; py := iy - y a |})
       (Editor.setDragMode (Some Editor.move)
          (Editor.setSelectedId (Some (id a)) s))).

(** The character [c] occurs in [s]. *)
Fixpoint has_char (c : ascii) (s : string) : bool :=
  match s with
  | EmptyString => false
  | String c' rest => Ascii.eqb c' c || has_char c rest
  end.

(** The stroke that flattening paints for an annotation. *)
Definition stroke_of (ann : Annotation) : Canvas.DrawOp :=
  Canvas.StrokeRect (COLOR_MAP (color ann)) STROKE_WIDTH
    (x ann) (y ann) (width ann) (height ann).

Definition is_stroke (op : Canvas.DrawOp) : bool :=
  match op with
  | Canvas.StrokeRect _ _ _ _ _ _ => true
  | _ => false
  end.

Definition is_image (op : Canvas.DrawOp) : bool :=
  match op with
  | Canvas.DrawImage _ _ _ => true
  | _ => false
  end.

(** The text painted by a list of operations, in painting order. *)
Fixpoint drawn_text (ops : list Canvas.DrawOp) : string :=
  match ops with
  | [] => EmptyString
  | Canvas.FillText _ _ _ t _ _ :: rest => t +:+ drawn_text rest
  | _ :: rest => drawn_text rest
  end.

(** The words of a note, each followed by a space. *)
Definition spaced (words : list string) : string :=
  fold_right (λ w acc, w +:+ " " +:+ acc) EmptyString words.

(** What is painted of an annotation's note: nothing for an empty note,
    else the note followed by one space. *)
Definition note_text (ann : Annotation) : string :=
  if Js.truthy (text ann) then text ann +:+ " " else EmptyString.

(** The font of the notes on the image [img]. *)
Definition note_font (img : Canvas.HTMLImageElement) : string :=
  "bold " +:+ Js.show (N.max 16 (Canvas.iwidth img / 50))
  +:+ "px Inter, sans-serif".

(** A line [t] measured in the font [f] fits the width [maxWidth], or is
    one of the [words] on its own. *)
Definition fits_or_single (b : Canvas.Browser) (f : string) (maxWidth : Q)
    (words : list string) (t : string) : Prop :=
  (Canvas.measureText b f t <= maxWidth)%Q ∨ ∃ w, w ∈ words ∧ t = w +:+ " ".

(** [op] paints a line of the note of [ann]: in the annotation's color, in
    the note font, from the top, 5 pixels right of the box's left side;
    and the line fits the box's inner width unless it is a single word. *)
Definition note_line (b : Canvas.Browser) (img : Canvas.HTMLImageElement)
    (ann : Annotation) (op : Canvas.DrawOp) : Prop :=
  match op with
  | Canvas.FillText f fs tb t tx _ =>
      f = note_font img ∧ fs = COLOR_MAP (color ann) ∧ tb = "top" ∧
      tx = (x ann + 5)%Q ∧
      fits_or_single b f (width ann - 10) (Js.split_on " " (text ann)) t
  | _ => False
  end.

(** The painted notes of a list of annotations, in order. *)
Definition all_notes (anns : list Annotation) : string :=
  fold_right (λ ann acc, note_text ann +:+ acc) EmptyString anns.

(** Every container met by a move of the sequence has a positive width. *)
Definition laid_out (evs : list Slider.Event) : Prop :=
  Forall (λ ev, match ev with
                | Slider.MouseMove (Some rect) _
                | Slider.TouchMove (Some rect) _ =>
                    (0 < CompareSlider.width rect)%Q
                | _ => True
                end) evs.

(** No event of the sequence presses the mouse or starts a touch. *)
Definition no_press (evs : list Slider.Event) : Prop :=
  Forall (λ ev, match ev with
                | Slider.MouseDown | Slider.TouchStart => False
                | _ => True
                end) evs.

(** [undo], [n] times in a row. *)
Fixpoint undo_times (n : nat) (s : Editor.State) : option Editor.State :=
  match n with
  | O => Some s
  | S n' => s' ← Editor.undo s; undo_times n' s'
  end.

(** ** Sample inputs *)

Module Sample.

(** An 800 pixel wide image displayed at half size. *)
Definition view : Editor.Viewport :=
  {| Editor.refs_ready := true; Editor.rect_left := 10;
     Editor.rect_top := 20; Editor.img_width := 400;
     Editor.img_naturalWidth := 800 |}.

Definition at_ (cx cy : Q) : Editor.MouseEvent :=
  {| Editor.clientX := cx; Editor.clientY := cy |}.

Definition hat : Annotation :=
  {| id := "k3f9x2a1b"; x := 10; y := 10; width := 100; height := 40;
     text := "remove hat"; color := red |}.

Definition sky : Annotation :=
  {| id := "p0q8r7s6t"; x := 200; y := 30; width := 6; height := 0;
     text := "make the sky darker"; color := cyan |}.

Definition sea : Annotation :=
  {| id := "z1y2x3w4v"; x := 20; y := 300; width := 250; height := 80;
     text := ""; color := cyan |}.

(** A fresh editor. *)
Definition idle : Editor.State := Editor.initial [].

(** An editor after two commits. *)
Definition committed : Editor.State :=
  Editor.updateAnnotationsWithHistory [hat; sky]
    (Editor.updateAnnotationsWithHistory [hat] idle).

(** An editor in the middle of resizing [sky]. *)
Definition resizing_sky : Editor.State :=
  Editor.setIsDrawing true
    (Editor.setDragMode (Some Editor.resize_se)
       (Editor.setSelectedId (Some "p0q8r7s6t")
          (Editor.setTool SelectTool committed))).

Definition app : App.State :=
  {| App.stage := App.edit;
     App.imageSrc := Some "data:image/png;base64,AAAA";
     App.annotations := [hat; sky; sea];
     App.generatedImage := None;
     App.isProcessing := false;
     App.error := None |}.

Definition app_with_result : App.State :=
  {| App.stage := App.result;
     App.imageSrc := Some "data:image/png;base64,AAAA";
     App.annotations := [hat; sky; sea];
     App.generatedImage := Some "data:image/png;base64,BBBB";
     App.isProcessing := false;
     App.error := None |}.

Definition flatten (src : string) (anns : list Annotation) : Js.Result string :=
  Js.Ok (src +:+ "+" +:+ Js.show (N.of_nat (length anns))).

Definition service (image instruction : string) : Js.Result string :=
  Js.Ok "data:image/png;base64,CCCC".

Definition photo : Canvas.HTMLImageElement :=
  {| Canvas.src := "data:image/png;base64,AAAA";
     Canvas.naturalWidth := 500; Canvas.naturalHeight := 500;
     Canvas.iwidth := 500 |}.

(** A browser in which every character is 10 pixels wide. *)
Definition browser : Canvas.Browser :=
  {| Canvas.loadImage := λ _, Js.Ok photo;
     Canvas.has_2d_context := true;
     Canvas.measureText := λ _ t, inject_Z (10 * Z.of_nat (String.length t));
     Canvas.toDataURL := λ c mime,
       "data:" +:+ mime +:+ ";" +:+ Js.show (Canvas.cwidth c) +:+ "x"
       +:+ Js.show (Canvas.cheight c) |}.

Definition container : CompareSlider.DOMRect :=
  {| CompareSlider.left := 100; CompareSlider.width := 400 |}.

(** An editor with the select tool, showing [hat] and [sky]. *)
Definition selecting : Editor.State := Editor.setTool SelectTool committed.

(** Draw a box, grab it, move it, type a note, undo and redo. *)
Definition session : list Editor.Event :=
  [ Editor.MouseDown view (at_ 110 120);
    Editor.MouseMove view (at_ 300 300);
    Editor.MouseUp "a1b2c3d4e";
    Editor.TextChange "a1b2c3d4e" "remove hat";
    Editor.Blur;
    Editor.MouseDown view (at_ 150 150);
    Editor.MouseMove view (at_ 160 170);
    Editor.MouseLeave "f5g6h7i8j";
    Editor.ClickUndo;
    Editor.ClickRedo;
    Editor.ClickDelete ].

Definition png : Downscale.File :=
  {| Downscale.ftype := "image/png"; Downscale.fname := "photo.png" |}.

(** A panorama of 8192 by 2048 pixels. *)
Definition panorama : Canvas.HTMLImageElement :=
  {| Canvas.src := "data:image/png;base64,AAAA";
     Canvas.naturalWidth := 8192; Canvas.naturalHeight := 2048;
     Canvas.iwidth := 8192 |}.

Definition files : Downscale.FileApi :=
  {| Downscale.readAsDataURL := λ _, Some (Some "data:image/png;base64,AAAA");
     Downscale.width_of := Canvas.iwidth;
     Downscale.height_of := Canvas.naturalHeight;
     Downscale.encode := λ c t q,
       "data:" +:+ t +:+ ";" +:+ Js.show (Downscale.swidth c) +:+ "x"
       +:+ Js.show (Downscale.sheight c) |}.

(** A browser that decodes every source to the panorama. *)
Definition wide_browser : Canvas.Browser :=
  {| Canvas.loadImage := λ _, Js.Ok panorama;
     Canvas.has_2d_context := true;
     Canvas.measureText := λ _ t, inject_Z (10 * Z.of_nat (String.length t));
     Canvas.toDataURL := λ c mime, "data:" +:+ mime |}.

(** A browser that cannot decode anything. *)
Definition blind_browser : Canvas.Browser :=
  {| Canvas.loadImage := λ _, Js.Throw EmptyString;
     Canvas.has_2d_context := true;
     Canvas.measureText := λ _ t, inject_Z (10 * Z.of_nat (String.length t));
     Canvas.toDataURL := λ c mime, "data:" +:+ mime |}.

(** A remote API that is down. *)
Definition outage : Gemini.Api := λ _, Js.Throw "503 Service Unavailable".

(** A rectangle-tool drag of 2 screen pixels to the right (4 image pixels)
    and 40 down (80 image pixels), before the pointer-up. *)
Definition narrow : Editor.State :=
  Editor.moves view [at_ 112 160]
    (Editor.handleMouseDown view (at_ 110 120) idle).

(** Draw a box, type a note, click on the empty canvas. The click
    deselects the box, which takes its text field away; the handlers
    themselves commit nothing on a deselection, and no blur of the field
    is delivered in this run. *)
Definition typing : list Editor.Event :=
  [ Editor.MouseDown view (at_ 110 120);
    Editor.MouseMove view (at_ 300 300);
    Editor.MouseUp "a1b2c3d4e";
    Editor.TextChange "a1b2c3d4e" "remove hat";
    Editor.MouseDown view (at_ 10 20);
    Editor.MouseUp "f5g6h7i8j" ].

Definition swipe : list Slider.Event :=
  [ Slider.MouseDown;
    Slider.MouseMove (Some container) 700;
    Slider.MouseMove (Some container) 20;
    Slider.MouseUp;
    Slider.TouchStart;
    Slider.TouchMove (Some container) 260;
    Slider.TouchEnd ].

Definition hover : list Slider.Event :=
  [ Slider.MouseMove (Some container) 700;
    Slider.MouseUp;
    Slider.TouchMove (Some container) 20 ].

End Sample.

(** * Properties *)

(** ** Comparisons and truthiness of numbers *)

(** Closed comparisons of rationals, by evaluation. *)
Ltac q_closed :=
  first [apply Qle_bool_iff | apply Qlt_alt]; vm_compute; reflexivity.

Section NumberFacts.

Lemma gt_true (a b : Q) : Js.gt a b = true ↔ (b < a)%Q.
Proof.
  unfold Js.gt. rewrite negb_true_iff, <- not_true_iff_false, Qle_bool_iff.
  split; [apply Qnot_le_lt | apply Qlt_not_le].
Qed.

Lemma gt_false (a b : Q) : Js.gt a b = false ↔ (a <= b)%Q.
Proof.
  unfold Js.gt. rewrite negb_false_iff. apply Qle_bool_iff.
Qed.

Lemma truthy_num_gt (w k : Q) :
  (0 <= k)%Q → Js.truthy_num w && Js.gt w k = Js.gt w k.
Proof.
  intros Hk. destruct (Js.gt w k) eqn:Hgt; [|apply andb_false_r].
  rewrite andb_true_r. apply gt_true in Hgt.
  unfold Js.truthy_num. apply negb_true_iff, not_true_iff_false.
  intros Heq. apply Qeq_bool_iff in Heq. rewrite Heq in Hgt.
  apply (Qlt_irrefl 0). eapply Qle_lt_trans; eauto.
Qed.

Lemma Qabs_sub_bounds (a b : Q) :
  (Qabs (b - a) == Qmax a b - Qmin a b)%Q.
Proof.
  destruct (Qlt_le_dec a b) as [Hlt | Hle].
  - rewrite Qabs_pos by lra.
    rewrite (Q.max_r a b), (Q.min_l a b) by lra. reflexivity.
  - rewrite Qabs_neg by lra.
    rewrite (Q.max_l a b), (Q.min_r a b) by lra. lra.
Qed.

End NumberFacts.

(** ** The undo/redo history *)

Section HistoryFacts.
Import Editor.

Lemma commit_history (new : list Annotation) (s : State) :
  history (updateAnnotationsWithHistory new s)
  = take (S (historyIndex s)) (history s) ++ [new].
Proof. cbn. by rewrite Nat.add_1_r. Qed.

Lemma commit_index (new : list Annotation) (s : State) :
  wf s →
  historyIndex (updateAnnotationsWithHistory new s) = S (historyIndex s).
Proof.
  unfold wf. intros Hwf. cbn.
  rewrite length_app, length_take. cbn. lia.
Qed.

Lemma commit_wf (new : list Annotation) (s : State) :
  wf (updateAnnotationsWithHistory new s).
Proof.
  unfold wf. cbn. rewrite length_app. cbn. lia.
Qed.

Lemma commit_cursor_shown (new : list Annotation) (s : State) :
  cursor_shown (updateAnnotationsWithHistory new s).
Proof.
  unfold cursor_shown. cbn.
  rewrite length_app. cbn.
  rewrite lookup_app_r by lia.
  replace (_ - _)%nat with 0%nat by lia. done.
Qed.

Lemma undo_moves (s : State) :
  wf s → (0 < historyIndex s)%nat →
  ∃ snapshot,
    history s !! (historyIndex s - 1)%nat = Some snapshot ∧
    undo s = Some (setSelectedId None
                     (setAnnotations snapshot
                        (setHistoryIndex (historyIndex s - 1) s))).
Proof.
  unfold wf. intros Hwf Hpos.
  destruct (lookup_lt_is_Some_2 (history s) (historyIndex s - 1)) as [snap Hsnap];
    [lia|].
  exists snap. split; [done|].
  unfold undo. apply Nat.ltb_lt in Hpos. rewrite Hpos, Hsnap. done.
Qed.

Lemma undo_stays (s : State) : historyIndex s = 0%nat → undo s = Some s.
Proof. intros H0. unfold undo. by rewrite H0. Qed.

Lemma redo_moves (s : State) :
  (S (historyIndex s) < length (history s))%nat →
  ∃ snapshot,
    history s !! S (historyIndex s) = Some snapshot ∧
    redo s = Some (setSelectedId None
                     (setAnnotations snapshot
                        (setHistoryIndex (S (historyIndex s)) s))).
Proof.
  intros Hlt.
  destruct (lookup_lt_is_Some_2 (history s) (S (historyIndex s))) as [snap Hsnap];
    [lia|].
  exists snap. split; [done|].
  unfold redo.
  replace (_ <? _)%Z with true by (symmetry; apply Z.ltb_lt; lia).
  rewrite Nat.add_1_r, Hsnap. done.
Qed.

Lemma redo_stays (s : State) :
  (length (history s) ≤ S (historyIndex s))%nat → redo s = Some s.
Proof.
  intros Hge. unfold redo.
  replace (_ <? _)%Z with false by (symmetry; apply Z.ltb_ge; lia).
  done.
Qed.

Lemma undo_wf (s s' : State) : wf s → undo s = Some s' → wf s'.
Proof.
  intros Hwf Hundo.
  destruct (historyIndex s) as [|n] eqn:Hidx.
  - rewrite undo_stays in Hundo by done. by simplify_eq.
  - destruct (undo_moves s) as (snap & _ & Heq); [done|lia|].
    rewrite Heq in Hundo. simplify_eq. unfold wf in *. cbn. lia.
Qed.

Lemma redo_wf (s s' : State) : wf s → redo s = Some s' → wf s'.
Proof.
  intros Hwf Hredo.
  destruct (decide (S (historyIndex s) < length (history s))%nat) as [Hlt|Hge].
  - destruct (redo_moves s Hlt) as (snap & _ & Heq).
    rewrite Heq in Hredo. simplify_eq. unfold wf. cbn. done.
  - rewrite redo_stays in Hredo by lia. by simplify_eq.
Qed.

Lemma undo_total (s : State) : wf s → is_Some (undo s).
Proof.
  intros Hwf. destruct (historyIndex s) as [|n] eqn:Hidx.
  - rewrite undo_stays by done. eauto.
  - destruct (undo_moves s) as (snap & _ & Heq); [done|lia|].
    rewrite Heq. eauto.
Qed.

Lemma redo_total (s : State) : is_Some (redo s).
Proof.
  destruct (decide (S (historyIndex s) < length (history s))%nat) as [Hlt|Hge].
  - destruct (redo_moves s Hlt) as (snap & _ & Heq). rewrite Heq. eauto.
  - rewrite redo_stays by lia. eauto.
Qed.

End HistoryFacts.

Section HistoryTheorems.
Import Editor.

(** C5. With a valid cursor: a commit drops every snapshot after the
    cursor, appends the new snapshot, and leaves the cursor on it, the
    last position, where the displayed list is stored; undo and redo leave
    the stored snapshots as they are, and when they move the cursor the
    displayed list is the snapshot under it; when they do not move it the
    state is unchanged. *)
Theorem history_cursor_invariant (s : State) :
  wf s →
  (∀ new, let s' := updateAnnotationsWithHistory new s in
     history s' = take (S (historyIndex s)) (history s) ++ [new] ∧
     historyIndex s' = S (historyIndex s) ∧
     S (historyIndex s') = length (history s') ∧
     annotations s' = new ∧ cursor_shown s' ∧ wf s') ∧
  (∃ s', undo s = Some s' ∧ history s' = history s ∧ wf s' ∧
     (cursor_shown s → cursor_shown s') ∧
     ((0 < historyIndex s)%nat →
        S (historyIndex s') = historyIndex s ∧ cursor_shown s') ∧
     (historyIndex s = 0%nat → s' = s)) ∧
  (∃ s', redo s = Some s' ∧ history s' = history s ∧ wf s' ∧
     (cursor_shown s → cursor_shown s') ∧
     ((S (historyIndex s) < length (history s))%nat →
        historyIndex s' = S (historyIndex s) ∧ cursor_shown s') ∧
     ((length (history s) ≤ S (historyIndex s))%nat → s' = s)).
Proof.
  intros Hwf. split; [|split].
  - intros new s'. subst s'.
    pose proof (commit_index new s Hwf) as Hidx.
    pose proof (commit_history new s) as Hhist.
    repeat split; try done.
    + rewrite Hidx, Hhist, length_app, length_take, length_cons, length_nil.
      unfold wf in Hwf. lia.
    + apply commit_cursor_shown.
    + apply commit_wf.
  - destruct (Nat.eq_dec (historyIndex s) 0) as [Hzero|Hpos].
    + exists s. split; [by apply undo_stays|].
      repeat split; try done; intros; lia.
    + destruct (undo_moves s) as (snap & Hsnap & Heq); [done|lia|].
      eexists. split; [exact Heq|].
      assert (cursor_shown
                (setSelectedId None
                   (setAnnotations snap (setHistoryIndex (historyIndex s - 1) s))))
        as Hshown by (unfold cursor_shown; cbn; done).
      split; [done|]. split; [unfold wf in *; cbn; lia|].
      split; [done|]. split; [|intros; lia].
      intros _. split; [cbn; lia|done].
  - destruct (decide (S (historyIndex s) < length (history s))%nat) as [Hlt|Hge].
    + destruct (redo_moves s Hlt) as (snap & Hsnap & Heq).
      eexists. split; [exact Heq|].
      assert (cursor_shown
                (setSelectedId None
                   (setAnnotations snap (setHistoryIndex (S (historyIndex s)) s))))
        as Hshown by (unfold cursor_shown; cbn; done).
      split; [done|]. split; [unfold wf; cbn; lia|].
      split; [done|]. split; [|intros; lia].
      intros _. split; [done|done].
    + exists s. split; [apply redo_stays; lia|].
      repeat split; try done; intros; lia.
Qed.

(** C4, as the code has it. From a state whose cursor is valid and not on
    the first snapshot, undo followed by redo succeeds and displays the
    committed snapshot under the cursor, with the cursor and the stored
    snapshots as they were. That snapshot is the list displayed before the
    undo exactly when the displayed list was the snapshot under the
    cursor: what was displayed without a commit (a typed note before its
    blur, the frames of a drag) does not come back. *)
Theorem undo_then_redo (s : State) :
  wf s → (0 < historyIndex s)%nat →
  ∃ s1 s2, undo s = Some s1 ∧ redo s1 = Some s2 ∧
    history s !! historyIndex s = Some (annotations s2) ∧
    historyIndex s2 = historyIndex s ∧
    history s2 = history s ∧
    (annotations s2 = annotations s ↔ cursor_shown s).
Proof.
  intros Hwf Hpos.
  destruct (undo_moves s Hwf Hpos) as (snap & Hsnap & Hundo).
  set (s1 := setSelectedId None
               (setAnnotations snap (setHistoryIndex (historyIndex s - 1) s))).
  assert (S (historyIndex s1) = historyIndex s) as Hidx1 by (cbn; lia).
  assert (history s1 = history s) as Hhist1 by done.
  destruct (redo_moves s1) as (snap' & Hsnap' & Hredo).
  { rewrite Hidx1, Hhist1. exact Hwf. }
  rewrite Hidx1, Hhist1 in Hsnap'.
  exists s1. eexists. split; [exact Hundo|]. split; [exact Hredo|].
  cbn [annotations history historyIndex setSelectedId setAnnotations
       setHistoryIndex].
  split; [exact Hsnap'|]. split; [cbn; lia|]. split; [done|].
  unfold cursor_shown. rewrite Hsnap'. split; [by intros ->|by intros [= ->]].
Qed.

End HistoryTheorems.

(** ** Reachable editor states have a valid cursor *)

Section Reachability.
Import Editor.

Lemma wf_transfer (s s' : State) :
  history s' = history s → historyIndex s' = historyIndex s → wf s → wf s'.
Proof. unfold wf. by intros -> ->. Qed.

Lemma initial_wf (anns : list Annotation) : wf (initial anns).
Proof. unfold wf. cbn. lia. Qed.

Lemma handleMouseDown_history v e s :
  history (handleMouseDown v e s) = history s ∧
  historyIndex (handleMouseDown v e s) = historyIndex s ∧
  annotations (handleMouseDown v e s) = annotations s.
Proof. unfold handleMouseDown. repeat case_match; done. Qed.

Lemma handleMouseMove_history v e s :
  history (handleMouseMove v e s) = history s ∧
  historyIndex (handleMouseMove v e s) = historyIndex s.
Proof.
  unfold handleMouseMove, drag_selected. repeat case_match; done.
Qed.

Lemma handleMouseUp_wf newId s : wf s → wf (handleMouseUp newId s).
Proof.
  intros Hwf. unfold handleMouseUp.
  repeat case_match;
    first [ by apply (wf_transfer s)
          | eapply wf_transfer; [| |apply commit_wf]; done ].
Qed.

Lemma deleteSelected_wf s : wf s → wf (deleteSelected s).
Proof.
  intros Hwf. unfold deleteSelected. case_match; [|done].
  eapply wf_transfer; [| |apply commit_wf]; done.
Qed.

Lemma handleKeyDown_wf e s s' : wf s → handleKeyDown e s = Some s' → wf s'.
Proof.
  intros Hwf. unfold handleKeyDown.
  repeat case_match; intros Heq;
    try (by eapply undo_wf); try (by eapply redo_wf);
    simplify_eq; try done; by apply deleteSelected_wf.
Qed.

Lemma step_wf ev s s' : wf s → step ev s = Some s' → wf s'.
Proof.
  intros Hwf. destruct ev; cbn [step]; intros Heq;
    try (by eapply undo_wf); try (by eapply redo_wf);
    try (by eapply handleKeyDown_wf); simplify_eq.
  - eapply wf_transfer; [apply handleMouseDown_history..|done].
  - eapply wf_transfer; [apply handleMouseMove_history..|done].
  - by apply handleMouseUp_wf.
  - by apply handleMouseUp_wf.
  - done.
  - apply commit_wf.
  - done.
  - done.
  - done.
  - by apply deleteSelected_wf.
Qed.

Lemma step_total ev s : wf s → is_Some (step ev s).
Proof.
  intros Hwf. destruct ev; cbn [step]; eauto using undo_total, redo_total.
  unfold handleKeyDown. repeat case_match; eauto using undo_total, redo_total.
Qed.

(** Every sequence of events runs to completion from a mounted editor,
    and the cursor stays inside the history. *)
Lemma run_wf evs : ∀ s, wf s → ∃ s', run evs s = Some s' ∧ wf s'.
Proof.
  induction evs as [|ev evs IH]; intros s Hwf; cbn [run].
  - eauto.
  - destruct (step_total ev s Hwf) as [s1 Hs1]. rewrite Hs1. cbn.
    apply IH. by eapply step_wf.
Qed.

Corollary reachable_wf (anns : list Annotation) (evs : list Event) :
  ∃ s, run evs (initial anns) = Some s ∧ wf s.
Proof. apply run_wf, initial_wf. Qed.

End Reachability.

(** ** Drawing a rectangle *)

Section DrawingFacts.
Import Editor.

Lemma span_nonneg (start : Point) (ix iy : Q) :
  (0 <= rwidth (span start ix iy))%Q ∧ (0 <= rheight (span start ix iy))%Q.
Proof. split; apply Qabs_nonneg. Qed.

Lemma span_bounding_box (start : Point) (ix iy : Q) :
  bounding_box (span start ix iy) start {| px := ix; py := iy |}.
Proof.
  unfold bounding_box, span. cbn [rx ry rwidth rheight px py].
  repeat split.
  - destruct (Js.gt (ix - px start) 0) eqn:Hw.
    + apply gt_true in Hw. rewrite Q.min_l by lra. reflexivity.
    + apply gt_false in Hw. rewrite Q.min_r by lra. reflexivity.
  - destruct (Js.gt (iy - py start) 0) eqn:Hh.
    + apply gt_true in Hh. rewrite Q.min_l by lra. reflexivity.
    + apply gt_false in Hh. rewrite Q.min_r by lra. reflexivity.
  - destruct (Js.gt (ix - px start) 0) eqn:Hw.
    + apply gt_true in Hw.
      pose proof (Qabs_pos (ix - px start) ltac:(lra)) as Habs.
      rewrite Q.max_r by lra. lra.
    + apply gt_false in Hw.
      pose proof (Qabs_neg (ix - px start) ltac:(lra)) as Habs.
      rewrite Q.max_l by lra. lra.
  - destruct (Js.gt (iy - py start) 0) eqn:Hh.
    + apply gt_true in Hh.
      pose proof (Qabs_pos (iy - py start) ltac:(lra)) as Habs.
      rewrite Q.max_r by lra. lra.
    + apply gt_false in Hh.
      pose proof (Qabs_neg (iy - py start) ltac:(lra)) as Habs.
      rewrite Q.max_l by lra. lra.
Qed.

Lemma handleMouseMove_rect v e s start :
  refs_ready v = true → isDrawing s = true → tool s = RectTool →
  startPoint s = Some start →
  handleMouseMove v e s
  = setCurrentRect (Some (span start (imgX v e) (imgY v e))) s.
Proof.
  intros Hv Hd Ht Hs. unfold handleMouseMove. by rewrite Hv, Hd, Ht, Hs.
Qed.

(** A run of pointer-moves leaves only the rectangle of the last one. *)
Lemma moves_rect v start es :
  refs_ready v = true →
  ∀ s, isDrawing s = true → tool s = RectTool → startPoint s = Some start →
  moves v es s
  = match last es with
    | Some e => setCurrentRect (Some (span start (imgX v e) (imgY v e))) s
    | None => s
    end.
Proof.
  intros Hv. induction es as [|e es IH]; intros s Hd Ht Hs; [done|].
  unfold moves in *. cbn [fold_left].
  rewrite (handleMouseMove_rect v e s start) by done.
  rewrite IH by done.
  destruct es as [|e' es]; [by cbn|].
  rewrite last_cons_cons.
  destruct (last (e' :: es)) eqn:Hlast; [done|].
  by apply last_None in Hlast.
Qed.

Lemma handleMouseDown_rect v e s :
  refs_ready v = true → tool s = RectTool →
  handleMouseDown v e s
  = setCurrentRect
      (Some {| rx := imgX v e; ry := imgY v e; rwidth := 0; rheight := 0 |})
      (setStartPoint (Some (pointer v e))
         (setIsDrawing true (setSelectedId None s))).
Proof. intros Hv Ht. unfold handleMouseDown. by rewrite Hv, Ht. Qed.

Lemma last_default {A} (es : list A) (d : A) :
  List.last es d = default d (last es).
Proof.
  induction es as [|e es IH]; [done|].
  destruct es as [|e' es]; [done|].
  rewrite last_cons_cons. exact IH.
Qed.

Lemma keeps_rect_wide (s : State) (r : Rect) :
  keeps_rect s = Some r →
  tool s = RectTool ∧ currentRect s = Some r ∧ (5 < rwidth r)%Q.
Proof.
  unfold keeps_rect. destruct (tool s); try done.
  destruct (currentRect s) as [r'|]; try done.
  rewrite truthy_num_gt by lra.
  destruct (Js.gt (rwidth r') 5) eqn:Hgt; try done.
  intros [= ->]. by apply gt_true in Hgt.
Qed.

(** In any state, a pointer-up either leaves the annotation list as it is
    or appends the transient rectangle, and then that rectangle is wider
    than 5. *)
Lemma handleMouseUp_annotations (newId : string) (s : State) :
  annotations (handleMouseUp newId s) = annotations s ∨
  ∃ r, currentRect s = Some r ∧ (5 < rwidth r)%Q ∧
       annotations (handleMouseUp newId s)
       = annotations s ++ [newAnn newId r (activeColor s)].
Proof.
  unfold handleMouseUp. destruct (isDrawing s); [|by left].
  destruct (keeps_rect s) as [r|] eqn:Hkeep.
  - right. apply keeps_rect_wide in Hkeep as (_ & Hrect & Hwide).
    by exists r.
  - left. by destruct (dragMode s).
Qed.

End DrawingFacts.

Section DrawingTheorems.
Import Editor.

Lemma drag_drawing v down es s :
  refs_ready v = true → tool s = RectTool →
  ∃ r, moves v es (handleMouseDown v down s) = drawing (pointer v down) r s ∧
       (0 <= rwidth r)%Q ∧ (0 <= rheight r)%Q ∧
       bounding_box r (pointer v down) (pointer v (List.last es down)).
Proof.
  intros Hv Ht.
  rewrite handleMouseDown_rect by done.
  rewrite (moves_rect v (pointer v down)) by done.
  rewrite last_default.
  destruct (last es) as [e|]; cbn [default].
  - exists (span (pointer v down) (imgX v e) (imgY v e)).
    split; [done|].
    split; [apply span_nonneg|]. split; [apply span_nonneg|].
    apply (span_bounding_box (pointer v down) (imgX v e) (imgY v e)).
  - eexists. split; [reflexivity|].
    unfold bounding_box. cbn [rx ry rwidth rheight pointer px py].
    rewrite !Q.min_id, !Q.max_id. repeat split; lra.
Qed.

Lemma handleMouseUp_keep newId start r s :
  tool s = RectTool → (5 < rwidth r)%Q →
  annotations (handleMouseUp newId (drawing start r s))
  = annotations s ++ [newAnn newId r (activeColor s)].
Proof.
  intros Ht Hw. unfold handleMouseUp, keeps_rect.
  cbn [drawing isDrawing tool currentRect setCurrentRect setStartPoint
       setIsDrawing setSelectedId].
  rewrite Ht, truthy_num_gt by lra.
  apply gt_true in Hw. rewrite Hw. done.
Qed.

(** C6. Draw with the rectangle tool on a displayed image (positive
    scale): after the pointer-down and any run of pointer-moves the
    transient rectangle exists, has non-negative width and height, and is
    the bounding box of the start point and the current pointer position,
    whatever the drag direction; and when the pointer-up commits it, the
    new annotation has that rectangle. *)
Theorem drawn_rect_is_bounding_box v down es s :
  refs_ready v = true → (0 < getScale v)%Q → tool s = RectTool →
  ∃ r, currentRect (moves v es (handleMouseDown v down s)) = Some r ∧
       (0 <= rwidth r)%Q ∧ (0 <= rheight r)%Q ∧
       bounding_box r (pointer v down) (pointer v (List.last es down)) ∧
       ∀ newId, (5 < rwidth r)%Q →
         annotations (drag v down es newId s)
         = annotations s ++ [newAnn newId r (activeColor s)].
Proof.
  intros Hv _ Ht.
  destruct (drag_drawing v down es s Hv Ht) as (r & Heq & Hw & Hh & Hbox).
  exists r. unfold drag. rewrite Heq.
  repeat split; try done; try apply Hbox.
  intros newId Hwide. by apply handleMouseUp_keep.
Qed.


End DrawingTheorems.

(** ** Resizing the selected annotation *)

Section ResizeFacts.
Import Editor.

Lemma handleMouseMove_resizing v e i s :
  resizing i s → resizing i (handleMouseMove v e s).
Proof.
  intros (Hd & Ht & Hsel & Hi & Hm).
  unfold handleMouseMove, drag_selected.
  rewrite Hd, Ht, Hsel, Hm. cbn [negb orb Js.truthy_opt]. rewrite Hi.
  repeat case_match; done.
Qed.

Lemma moves_resizing v es i : ∀ s, resizing i s → resizing i (moves v es s).
Proof.
  unfold moves. induction es as [|e es IH]; intros s Hs; [done|].
  cbn [fold_left]. apply IH. by apply handleMouseMove_resizing.
Qed.

Lemma resize_frame v e i s a :
  refs_ready v = true → resizing i s →
  a ∈ annotations (handleMouseMove v e s) → id a = i →
  (10 <= width a)%Q ∧ (10 <= height a)%Q.
Proof.
  intros Hv (Hd & Ht & Hsel & Hi & Hm).
  unfold handleMouseMove, drag_selected.
  rewrite Hd, Hv, Ht, Hsel, Hm. cbn [negb orb Js.truthy_opt]. rewrite Hi.
  destruct (List.find _ (annotations s)) as [selected|] eqn:Hfind;
    cbn [annotations setAnnotations]; intros Hin Hid.
  - apply list_elem_of_In, in_map_iff in Hin as (a0 & Ha & _).
    destruct (is_selected (Some i) a0) eqn:Hsel0; subst a.
    + cbn [resize_to width height]. split; apply Q.le_max_l.
    + cbn [is_selected] in Hsel0. by apply String.eqb_neq in Hsel0.
  - apply list_elem_of_In in Hin.
    apply (find_none _ _ Hfind) in Hin.
    cbn [is_selected] in Hin. by apply String.eqb_neq in Hin.
Qed.

End ResizeFacts.

Section ResizeTheorems.
Import Editor.

Lemma handleMouseUp_resizing newId i s :
  resizing i s →
  handleMouseUp newId s
  = setDragMode None
      (setCurrentRect None
         (setStartPoint None
            (setIsDrawing false
               (updateAnnotationsWithHistory (annotations s) s)))).
Proof.
  intros (Hd & Ht & _ & _ & Hm).
  unfold handleMouseUp, keeps_rect. by rewrite Hd, Ht, Hm.
Qed.

(** C10. In a resize drag of the selected annotation on a displayed image
    (positive scale), after every pointer-move each annotation with the
    selected id has width and height of at least 10; and after a drag with
    at least one pointer-move, the pointer-up commits a list with that same
    bound, stored as the snapshot under the cursor. *)
Theorem resize_keeps_minimum v i s :
  refs_ready v = true → (0 < getScale v)%Q → resizing i s →
  (∀ e a, a ∈ annotations (handleMouseMove v e s) → id a = i →
          (10 <= width a)%Q ∧ (10 <= height a)%Q) ∧
  (∀ es newId a, es ≠ [] →
     let s' := handleMouseUp newId (moves v es s) in
     cursor_shown s' ∧
     (a ∈ annotations s' → id a = i →
      (10 <= width a)%Q ∧ (10 <= height a)%Q)).
Proof.
  intros Hv _ Hs. split.
  - intros e a. by apply resize_frame.
  - intros es newId a Hne s'. subst s'.
    destruct (exists_last Hne) as (es' & e & ->).
    unfold moves. rewrite fold_left_app. cbn [fold_left].
    fold (moves v es' s).
    pose proof (moves_resizing v es' i s Hs) as Hs1.
    pose proof (handleMouseMove_resizing v e i _ Hs1) as Hs2.
    rewrite (handleMouseUp_resizing newId i) by done.
    split.
    + apply (commit_cursor_shown
               (annotations (handleMouseMove v e (moves v es' s)))
               (handleMouseMove v e (moves v es' s))).
    + cbn [annotations setDragMode setCurrentRect setStartPoint
           setIsDrawing updateAnnotationsWithHistory setAnnotations].
      by apply resize_frame.
Qed.

End ResizeTheorems.

(** ** The compare view's divider *)

Section CompareSliderTheorems.
Import CompareSlider.

Lemma clamped_pointer (rect : DOMRect) (clientX : Q) :
  (0 < width rect)%Q →
  let x := Qmax 0 (Qmin (clientX - left rect) (width rect)) in
  (0 <= x)%Q ∧ (x <= width rect)%Q.
Proof.
  intros Hw x. subst x. split.
  - apply Q.le_max_l.
  - apply Q.max_lub; [lra | apply Q.le_min_r].
Qed.

(** C9. With a container of positive width, the divider position computed
    from any pointer coordinate lies between 0 and 100. *)
Theorem divider_position_in_range (rect : DOMRect) (clientX position : Q) :
  (0 < width rect)%Q →
  (0 <= handleMove (Some rect) clientX position)%Q ∧
  (handleMove (Some rect) clientX position <= 100)%Q.
Proof.
  intros Hw. cbn [handleMove].
  destruct (clamped_pointer rect clientX Hw) as [Hlo Hhi].
  set (x := Qmax 0 (Qmin (clientX - left rect) (width rect))) in *.
  assert (0 <= x / width rect)%Q as Hq0.
  { apply Qle_shift_div_l; [done | lra]. }
  assert (x / width rect <= 1)%Q as Hq1.
  { apply Qle_shift_div_r; [done | lra]. }
  split; lra.
Qed.

(** While the container is not attached the position is not touched. *)
Lemma divider_position_unattached (clientX position : Q) :
  handleMove None clientX position = position.
Proof. reflexivity. Qed.

End CompareSliderTheorems.

(** ** Sorting by a key *)

Section SortFacts.
Context {A : Type} (sort_key : A → Z).

Local Abbreviation cmp_key := (by_key sort_key).
Local Abbreviation le_key := (key_le sort_key).

Lemma insert_perm (cmp : A → A → Z) (x : A) (l : list A) :
  Js.insert cmp x l ≡ₚ x :: l.
Proof.
  induction l as [|y l IH]; cbn [Js.insert]; [done|].
  destruct (cmp x y <=? 0)%Z; [done|].
  rewrite IH. apply Permutation_swap.
Qed.

Lemma sort_perm (cmp : A → A → Z) (l : list A) : Js.sort cmp l ≡ₚ l.
Proof.
  induction l as [|x l IH]; cbn [Js.sort]; [done|].
  by rewrite insert_perm, IH.
Qed.

Lemma insert_sorted (x : A) (l : list A) :
  StronglySorted le_key l → StronglySorted le_key (Js.insert cmp_key x l).
Proof.
  induction 1 as [|y l Hsorted IH Hall]; cbn [Js.insert].
  - by repeat constructor.
  - destruct (cmp_key x y <=? 0)%Z eqn:Hcmp.
    + apply Z.leb_le in Hcmp. unfold by_key in Hcmp.
      constructor; [by constructor|].
      constructor; [unfold key_le; lia|].
      eapply Forall_impl; [exact Hall|].
      unfold key_le. intros z Hz. lia.
    + apply Z.leb_gt in Hcmp. unfold by_key in Hcmp.
      constructor; [done|].
      rewrite insert_perm. constructor; [unfold key_le; lia | done].
Qed.

Lemma sort_sorted (l : list A) : StronglySorted le_key (Js.sort cmp_key l).
Proof.
  induction l as [|x l IH]; cbn [Js.sort]; [constructor|].
  by apply insert_sorted.
Qed.

Lemma sorted_last_max (l : list A) (d : A) :
  StronglySorted le_key l → last l = Some d →
  ∀ c, c ∈ l → (sort_key c ≤ sort_key d)%Z.
Proof.
  induction 1 as [|y l Hsorted IH Hall]; intros Hlast c Hc; [done|].
  destruct l as [|z l].
  - cbn in Hlast. apply list_elem_of_singleton in Hc. by simplify_eq.
  - rewrite last_cons_cons in Hlast.
    apply elem_of_cons in Hc as [->|Hc]; [|by apply IH].
    assert (d ∈ z :: l) as Hd by (by apply last_Some_elem_of).
    rewrite Forall_forall in Hall. by apply Hall.
Qed.

(** The element popped after sorting by a key has the largest key. *)
Lemma pop_sort_max (l : list A) (d : A) :
  Js.pop (Js.sort (λ a b, (sort_key a - sort_key b)%Z) l) = Some d →
  d ∈ l ∧ ∀ c, c ∈ l → (sort_key c ≤ sort_key d)%Z.
Proof.
  unfold Js.pop. intros Hpop. split.
  - rewrite <- (sort_perm (λ a b, (sort_key a - sort_key b)%Z) l).
    by apply last_Some_elem_of.
  - intros c Hc.
    apply (sorted_last_max _ d (sort_sorted l) Hpop).
    by rewrite (sort_perm cmp_key l).
Qed.

Lemma pop_sort_is_Some (cmp : A → A → Z) (l : list A) :
  l ≠ [] → is_Some (Js.pop (Js.sort cmp l)).
Proof.
  intros Hne. unfold Js.pop. apply last_is_Some.
  intros Hnil. apply Hne. apply Permutation_nil_r.
  by rewrite <- (sort_perm cmp l), Hnil.
Qed.

End SortFacts.

(** ** Choosing the instruction *)

Section InstructionTheorems.
Import App.

Lemma occurrences_nonneg colors c : (0 ≤ occurrences colors c)%Z.
Proof. unfold occurrences. lia. Qed.

Lemma color_eqb_eq a b : color_eqb a b = true ↔ a = b.
Proof. destruct a, b; cbn; split; congruence. Qed.

Lemma occurrences_absent colors c : c ∉ colors → occurrences colors c = 0%Z.
Proof.
  intros Hnot. unfold occurrences.
  replace (List.filter (λ v, color_eqb v c) colors) with (@nil AnnotationColor);
    [done|].
  symmetry. induction colors as [|v colors IH]; [done|].
  apply not_elem_of_cons in Hnot as [Hne Hnot]. cbn [List.filter].
  destruct (color_eqb v c) eqn:Heq; [|by apply IH].
  apply color_eqb_eq in Heq. congruence.
Qed.

Lemma dominantColor_dominant (anns : list Annotation) :
  anns ≠ [] → dominant (map color anns) (dominantColor anns).
Proof.
  intros Hne. unfold dominantColor.
  set (colors := map color anns).
  assert (colors ≠ []) as Hcolors by (by destruct anns).
  destruct (pop_sort_is_Some
              (λ a b, (occurrences colors a - occurrences colors b)%Z)
              colors Hcolors) as [d Hd].
  rewrite Hd. cbn [default].
  apply (pop_sort_max (occurrences colors)) in Hd as [Hin Hmax].
  split; [done|]. intros c.
  destruct (decide (c ∈ colors)) as [Hc|Hc]; [by apply Hmax|].
  rewrite (occurrences_absent colors c Hc). apply occurrences_nonneg.
Qed.


(** C3. A cleanup run on a previous result makes exactly one call of the
    edit service: the image is the previous result and the instruction is
    the fixed cleanup sentence, whatever the annotations are and whatever
    flattening would produce. *)
Theorem cleanup_sends_fixed_instruction
    (flatten : string → list Annotation → Js.Result string)
    (editImage : string → string → Js.Result string)
    (s : State) (src previous : string) :
  imageSrc s = Some src → Js.truthy src = true →
  generatedImage s = Some previous → Js.truthy previous = true →
  (generateEdit flatten editImage true s).2
  = [{| sent_image := previous;
        sent_instruction :=
          "Remove any remaining red text and red boxes without changing image content." |}].
Proof.
  intros Hsrc Htruthy Hprev Hprevtruthy.
  unfold generateEdit, prepare.
  rewrite Hsrc, Htruthy, Hprev. cbn [negb andb Js.truthy_opt default].
  rewrite Hprevtruthy.
  by destruct (editImage _ _).
Qed.

End InstructionTheorems.

(** ** Flattening *)

Section FlatteningTheorems.
Import Canvas.

Lemma wrap_size b maxWidth tx lineHeight words :
  ∀ first line ty c,
    same_size c (wrap b maxWidth tx lineHeight first words line ty c).2.
Proof.
  induction words as [|w words IH]; intros first line ty c; cbn [wrap].
  - done.
  - destruct (_ && _).
    + destruct (IH false (w +:+ " ") (ty + lineHeight)%Q (fillText line tx ty c))
        as [Hw Hh].
      split; [by rewrite Hw | by rewrite Hh].
    + apply IH.
Qed.

Lemma drawAnnotation_size b img c ann :
  same_size c (drawAnnotation b img c ann).
Proof.
  unfold drawAnnotation. destruct (Js.truthy (text ann)); [|done].
  match goal with
  | |- context [wrap ?b ?m ?x ?h ?f ?ws ?l ?y ?c0] =>
      pose proof (wrap_size b m x h ws f l y c0) as Hwrap;
      destruct (wrap b m x h f ws l y c0) as [[line ty] c']
  end.
  exact Hwrap.
Qed.

Lemma fold_drawAnnotation_size b img anns :
  ∀ c, same_size c (fold_left (drawAnnotation b img) anns c).
Proof.
  induction anns as [|ann anns IH]; intros c; cbn [fold_left]; [done|].
  destruct (IH (drawAnnotation b img c ann)) as [Hw Hh].
  destruct (drawAnnotation_size b img c ann) as [Hw' Hh'].
  split; congruence.
Qed.

(** C7. When the source decodes to the image [img] and a 2d context is
    available, flattening resolves with the encoding of a canvas whose
    width and height are the natural width and height of [img], for every
    annotation list. *)
Theorem flattening_preserves_dimensions
    (b : Browser) (imageSrc : string) (annotations : list Annotation)
    (mimeType : string) (img : HTMLImageElement) :
  loadImage b imageSrc = Js.Ok img → has_2d_context b = true →
  flattenAnnotations b imageSrc annotations mimeType
  = Js.Ok (toDataURL b (flattened b img annotations) mimeType) ∧
  cwidth (flattened b img annotations) = naturalWidth img ∧
  cheight (flattened b img annotations) = naturalHeight img.
Proof.
  intros Hload Hctx. split.
  - unfold flattenAnnotations. by rewrite Hload; cbn [Js.bind]; rewrite Hctx.
  - unfold flattened. apply fold_drawAnnotation_size.
Qed.

End FlatteningTheorems.

(** ** The edit service *)

Section EditServiceTheorems.
Import Gemini.

Lemma extract_Ok (r : GenerateContentResponse) (url : string) :
  extract r = Js.Ok url ↔
  ∃ dat, first_part_image r dat ∧ url = "data:image/png;base64," +:+ dat.
Proof.
  unfold extract, first_part_image. split.
  - destruct (first_parts r) as [[|part rest]|] eqn:Hparts; try done.
    destruct (inlineData part) as [d|] eqn:Hinline; try done.
    destruct (data d) as [dat|] eqn:Hdat; cbn [Js.truthy_opt default]; try done.
    destruct (Js.truthy dat) eqn:Ht; try done.
    intros [= <-]. exists dat. split; [|done].
    by exists part, rest, d.
  - intros (dat & (part & rest & d & -> & -> & -> & Ht) & ->).
    cbn [Js.truthy_opt default]. by rewrite Ht.
Qed.

Lemma extract_Throw (r : GenerateContentResponse) (message : string) :
  extract r = Js.Throw message → message = "No image generated in response.".
Proof.
  unfold extract. repeat case_match; congruence.
Qed.

Lemma or_else_truthy (message fallback : string) :
  Js.truthy fallback = true →
  Js.truthy (Js.or_else (Some message) fallback) = true.
Proof.
  intros Hf. unfold Js.or_else. by destruct (Js.truthy message) eqn:Hm.
Qed.

(** C8, as the code has it. The call returns an image exactly when the
    credential is present, the remote call resolves, and the first part
    of the first candidate carries non-empty inline data; the image is
    that data behind the PNG data-URL header.  In every other case the
    call throws an error with a non-empty message. *)
Theorem editImage_returns_first_part
    (apiKey : string) (generateContent : Api)
    (base64Image prompt mimeType : string) :
  (∀ url,
     editImage apiKey generateContent base64Image prompt mimeType = Js.Ok url ↔
     Js.truthy apiKey = true ∧
     ∃ r dat,
       generateContent (request base64Image prompt mimeType) = Js.Ok r ∧
       first_part_image r dat ∧
       url = "data:image/png;base64," +:+ dat) ∧
  ((∃ url, editImage apiKey generateContent base64Image prompt mimeType
           = Js.Ok url) ∨
   (∃ message, editImage apiKey generateContent base64Image prompt mimeType
               = Js.Throw message ∧ Js.truthy message = true)).
Proof.
  unfold editImage. split.
  - intros url. destruct (Js.truthy apiKey); cbn [negb].
    + destruct (generateContent _) as [r|m]; cbn [Js.bind].
      * destruct (extract r) as [u|m] eqn:Hex.
        -- split.
           ++ intros [= <-]. split; [done|].
              apply extract_Ok in Hex as (dat & Himg & ->). by exists r, dat.
           ++ intros (_ & r' & dat & [= <-] & Himg & ->).
              assert (extract r = Js.Ok ("data:image/png;base64," +:+ dat)) as Hex'
                by (apply extract_Ok; by exists dat).
              congruence.
        -- split; [done|].
           intros (_ & r' & dat & [= <-] & Himg & ->).
           assert (extract r = Js.Ok ("data:image/png;base64," +:+ dat)) as Hex'
             by (apply extract_Ok; by exists dat).
           congruence.
      * split; [done|]. by intros (_ & r & dat & ? & _).
    + split; [done|]. by intros [? _].
  - destruct (Js.truthy apiKey); cbn [negb]; [|right; by eexists].
    destruct (Js.bind _ _) as [u|m]; [left; by eexists|].
    right. eexists. split; [done|]. by apply or_else_truthy.
Qed.

End EditServiceTheorems.

(** ** The theorems at sample inputs *)

Section Witnesses.
Import Editor.


(** A drag up and to the left still yields a box with non-negative sides. *)
Lemma drawn_rect_is_bounding_box_witness :
  refs_ready Sample.view = true ∧ (0 < getScale Sample.view)%Q ∧
  tool Sample.idle = RectTool ∧
  ∃ r, currentRect
         (moves Sample.view [Sample.at_ 300 300; Sample.at_ 60 70]
            (handleMouseDown Sample.view (Sample.at_ 110 120) Sample.idle))
       = Some r ∧
       (0 <= rwidth r)%Q ∧ (0 <= rheight r)%Q ∧
       bounding_box r (pointer Sample.view (Sample.at_ 110 120))
         (pointer Sample.view
            (List.last [Sample.at_ 300 300; Sample.at_ 60 70]
               (Sample.at_ 110 120))).
Proof.
  assert (0 < getScale Sample.view)%Q as Hscale by q_closed.
  split; [reflexivity|]. split; [exact Hscale|]. split; [reflexivity|].
  destruct (drawn_rect_is_bounding_box Sample.view (Sample.at_ 110 120)
              [Sample.at_ 300 300; Sample.at_ 60 70] Sample.idle
              eq_refl Hscale eq_refl) as (r & Hr & Hw & Hh & Hbox & _).
  exists r. split; [exact Hr|]. split; [exact Hw|]. split; [exact Hh|].
  exact Hbox.
Defined.

Lemma resize_keeps_minimum_witness :
  refs_ready Sample.view = true ∧ (0 < getScale Sample.view)%Q ∧
  resizing "p0q8r7s6t" Sample.resizing_sky ∧
  ∀ a, a ∈ annotations
             (handleMouseMove Sample.view (Sample.at_ 0 0) Sample.resizing_sky) →
       id a = "p0q8r7s6t" → (10 <= width a)%Q ∧ (10 <= height a)%Q.
Proof.
  assert (resizing "p0q8r7s6t" Sample.resizing_sky) as Hres
    by (repeat split; reflexivity).
  assert (0 < getScale Sample.view)%Q as Hscale by q_closed.
  split; [reflexivity|]. split; [exact Hscale|]. split; [exact Hres|].
  exact (proj1 (resize_keeps_minimum Sample.view "p0q8r7s6t"
                  Sample.resizing_sky eq_refl Hscale Hres) (Sample.at_ 0 0)).
Defined.

Lemma history_cursor_invariant_witness :
  wf Sample.committed ∧
  ∃ s', undo Sample.committed = Some s' ∧
        history s' = history Sample.committed ∧ cursor_shown s'.
Proof.
  assert (wf Sample.committed) as Hwf by (unfold wf; cbn; lia).
  split; [exact Hwf|].
  destruct (history_cursor_invariant Sample.committed Hwf)
    as (_ & (s' & Hundo & Hhist & _ & _ & Hmoved & _) & _).
  exists s'. split; [exact Hundo|]. split; [exact Hhist|].
  apply Hmoved. cbn. lia.
Defined.

Lemma undo_then_redo_witness :
  wf Sample.committed ∧ (0 < historyIndex Sample.committed)%nat ∧
  ∃ s1 s2, undo Sample.committed = Some s1 ∧ redo s1 = Some s2 ∧
    annotations s2 = [Sample.hat; Sample.sky].
Proof.
  assert (wf Sample.committed) as Hwf by (unfold wf; cbn; lia).
  assert (0 < historyIndex Sample.committed)%nat as Hpos by (cbn; lia).
  split; [exact Hwf|]. split; [exact Hpos|].
  destruct (undo_then_redo Sample.committed Hwf Hpos)
    as (s1 & s2 & Hundo & Hredo & _ & _ & _ & Hiff).
  exists s1, s2. split; [exact Hundo|]. split; [exact Hredo|].
  exact (proj2 Hiff eq_refl).
Defined.

End Witnesses.

Section MoreWitnesses.


Lemma cleanup_sends_fixed_instruction_witness :
  App.imageSrc Sample.app_with_result = Some "data:image/png;base64,AAAA" ∧
  Js.truthy "data:image/png;base64,AAAA" = true ∧
  App.generatedImage Sample.app_with_result = Some "data:image/png;base64,BBBB" ∧
  Js.truthy "data:image/png;base64,BBBB" = true ∧
  (App.generateEdit Sample.flatten Sample.service true Sample.app_with_result).2
  = [{| App.sent_image := "data:image/png;base64,BBBB";
        App.sent_instruction :=
          "Remove any remaining red text and red boxes without changing image content." |}].
Proof.
  split; [reflexivity|]. split; [reflexivity|].
  split; [reflexivity|]. split; [reflexivity|].
  exact (cleanup_sends_fixed_instruction Sample.flatten Sample.service
           Sample.app_with_result "data:image/png;base64,AAAA"
           "data:image/png;base64,BBBB" eq_refl eq_refl eq_refl eq_refl).
Defined.

(** A 500 by 500 photo with one annotation flattens to 500 by 500. *)
Lemma flattening_preserves_dimensions_witness :
  Canvas.loadImage Sample.browser "data:image/png;base64,AAAA" = Js.Ok Sample.photo ∧
  Canvas.has_2d_context Sample.browser = true ∧
  Canvas.cwidth (Canvas.flattened Sample.browser Sample.photo [Sample.hat]) = 500%N ∧
  Canvas.cheight (Canvas.flattened Sample.browser Sample.photo [Sample.hat]) = 500%N.
Proof.
  split; [reflexivity|]. split; [reflexivity|].
  exact (proj2 (flattening_preserves_dimensions Sample.browser
                  "data:image/png;base64,AAAA" [Sample.hat] "image/png"
                  Sample.photo eq_refl eq_refl)).
Defined.

(** A pointer far to the right of the container gives 100. *)
Lemma divider_position_in_range_witness :
  (0 < CompareSlider.width Sample.container)%Q ∧
  (0 <= CompareSlider.handleMove (Some Sample.container) 700 50)%Q ∧
  (CompareSlider.handleMove (Some Sample.container) 700 50 <= 100)%Q.
Proof.
  assert (0 < CompareSlider.width Sample.container)%Q as Hw by q_closed.
  split; [exact Hw|].
  exact (divider_position_in_range Sample.container 700 50 Hw).
Defined.

End MoreWitnesses.

(** ** Behaviour at particular inputs *)

Section Examples.

(** C8 as stated fails: the response carries inline image data, in its
    second part, and the call throws. *)
Lemma editImage_misses_second_part :
  has_inline_image text_then_image ∧
  Gemini.editImage "key" (λ _, Js.Ok text_then_image)
    "data:image/png;base64,AAAA" "remove the hat" "image/png"
  = Js.Throw "No image generated in response.".
Proof.
  split; [|reflexivity].
  unfold has_inline_image, text_then_image. cbn.
  eexists _, _, _, _, _, _, _.
  split; [reflexivity|]. split; [apply list_elem_of_here|].
  split; [reflexivity|]. split; [reflexivity|].
  split; [apply list_elem_of_further, list_elem_of_here|].
  split; [reflexivity|]. split; reflexivity.
Qed.


(** C4 as stated fails: after a box is drawn, a note typed and the box
    deselected by a click on the empty canvas, undo is enabled, and undo
    followed by redo displays the box without its note. *)
Lemma undo_then_redo_loses_note :
  ∃ s s1 s2,
    Editor.run Sample.typing (Editor.initial []) = Some s ∧
    wf s ∧ (0 < Editor.historyIndex s)%nat ∧
    Editor.undo s = Some s1 ∧ Editor.redo s1 = Some s2 ∧
    text <$> Editor.annotations s = ["remove hat"] ∧
    text <$> Editor.annotations s2 = [""] ∧
    Editor.annotations s2 ≠ Editor.annotations s.
Proof.
  eexists _, _, _.
  split; [vm_compute; reflexivity|].
  split; [unfold wf; cbn; lia|]. split; [cbn; lia|].
  split; [vm_compute; reflexivity|]. split; [vm_compute; reflexivity|].
  split; [reflexivity|]. split; [reflexivity|].
  intros Heq. apply (f_equal (fmap text)) in Heq. discriminate Heq.
Qed.

(** On a tie the color of the later annotation wins. *)
Example dominantColor_tie :
  App.dominantColor [Sample.hat; Sample.sky] = cyan ∧
  App.dominantColor [Sample.sky; Sample.hat] = red.
Proof. split; reflexivity. Qed.

(** Without annotations the color falls back to red. *)
Example dominantColor_empty : App.dominantColor [] = red.
Proof. reflexivity. Qed.

(** A remounted editor shows the annotations kept by the application
    while its history holds the single empty snapshot. *)
Example remounted_cursor_not_shown :
  ¬ cursor_shown (Editor.initial [Sample.hat]).
Proof. unfold cursor_shown. cbn. congruence. Qed.

End Examples.

(** ** Invariants of the editor *)

Section EditorInvariants.
Import Editor.

Lemma undo_cases (s s' : State) :
  undo s = Some s' →
  s' = s ∨
  ∃ snapshot,
    history s !! (historyIndex s - 1)%nat = Some snapshot ∧
    s' = setSelectedId None
           (setAnnotations snapshot (setHistoryIndex (historyIndex s - 1) s)).
Proof.
  unfold undo. destruct (0 <? historyIndex s)%nat; [|intros [= <-]; by left].
  destruct (history s !! (historyIndex s - 1)%nat) as [snapshot|]; [|done].
  cbn. intros [= <-]. right. by exists snapshot.
Qed.

Lemma redo_cases (s s' : State) :
  redo s = Some s' →
  s' = s ∨
  ∃ snapshot,
    history s !! (historyIndex s + 1)%nat = Some snapshot ∧
    s' = setSelectedId None
           (setAnnotations snapshot (setHistoryIndex (historyIndex s + 1) s)).
Proof.
  unfold redo. destruct (_ <? _)%Z; [|intros [= <-]; by left].
  destruct (history s !! (historyIndex s + 1)%nat) as [snapshot|]; [|done].
  cbn. intros [= <-]. right. by exists snapshot.
Qed.

Lemma deleteSelected_cells (s : State) :
  drag_cells (deleteSelected s) = drag_cells s.
Proof. unfold deleteSelected. by case_match. Qed.

Lemma undo_cells (s s' : State) : undo s = Some s' → drag_cells s' = drag_cells s.
Proof. intros [->|(snap & _ & ->)]%undo_cases; done. Qed.

Lemma redo_cells (s s' : State) : redo s = Some s' → drag_cells s' = drag_cells s.
Proof. intros [->|(snap & _ & ->)]%redo_cases; done. Qed.

Lemma handleKeyDown_cells e (s s' : State) :
  handleKeyDown e s = Some s' → drag_cells s' = drag_cells s.
Proof.
  unfold handleKeyDown.
  repeat case_match; intros Heq;
    try (by eapply undo_cells); try (by eapply redo_cells);
    simplify_eq; try done; apply deleteSelected_cells.
Qed.

Lemma idle_cells_transfer (s s' : State) :
  drag_cells s' = drag_cells s → idle_cells s → idle_cells s'.
Proof. unfold drag_cells, idle_cells. intros [= -> -> -> ->]. done. Qed.

Lemma step_idle_cells ev (s s' : State) :
  idle_cells s → step ev s = Some s' → idle_cells s'.
Proof.
  intros Hidle. destruct ev; cbn [step]; intros Heq;
    try (eapply idle_cells_transfer; [|exact Hidle];
         first [ by eapply undo_cells | by eapply redo_cells
               | by eapply handleKeyDown_cells ]);
    simplify_eq.
  - unfold handleMouseDown. unfold idle_cells in *.
    repeat case_match; cbn; try done; auto.
  - unfold handleMouseMove, drag_selected. unfold idle_cells in *.
    destruct (isDrawing s) eqn:Hd; cbn [negb orb].
    + repeat case_match; cbn; intros; congruence.
    + rewrite Hd. intros _. by apply Hidle.
  - unfold idle_cells, handleMouseUp. done.
  - unfold idle_cells, handleMouseUp. done.
  - by eapply idle_cells_transfer.
  - by eapply idle_cells_transfer.
  - by eapply idle_cells_transfer.
  - by eapply idle_cells_transfer.
  - by eapply idle_cells_transfer.
  - eapply idle_cells_transfer; [apply deleteSelected_cells|done].
Qed.

(** A step keeps the history or commits one snapshot on top of the prefix
    that ends at the cursor. *)
Lemma step_history ev (s s' : State) :
  step ev s = Some s' →
  history s' = history s ∨
  ∃ new, history s' = take (S (historyIndex s)) (history s) ++ [new].
Proof.
  assert (∀ new t, history t = history (updateAnnotationsWithHistory new s) →
            history t = history s ∨
            ∃ new, history t = take (S (historyIndex s)) (history s) ++ [new])
    as Hcommit.
  { intros new t ->. right. exists new. apply commit_history. }
  assert (history (deleteSelected s) = history s ∨
          ∃ new, history (deleteSelected s)
                 = take (S (historyIndex s)) (history s) ++ [new]) as Hdelete.
  { unfold deleteSelected. case_match; [|by left]. by eapply Hcommit. }
  assert (∀ t, undo s = Some t → history t = history s) as Hundo.
  { by intros t [->|(snap & _ & ->)]%undo_cases. }
  assert (∀ t, redo s = Some t → history t = history s) as Hredo.
  { by intros t [->|(snap & _ & ->)]%redo_cases. }
  destruct ev; cbn [step]; intros Heq;
    try (left; first [by apply Hundo | by apply Hredo]); simplify_eq;
    try (by left).
  - left. apply handleMouseDown_history.
  - left. apply handleMouseMove_history.
  - unfold handleMouseUp. repeat case_match; try (by left); by eapply Hcommit.
  - unfold handleMouseUp. repeat case_match; try (by left); by eapply Hcommit.
  - by eapply Hcommit.
  - revert Heq. unfold handleKeyDown.
    repeat case_match; intros Heq;
      try (left; first [by apply Hundo | by apply Hredo]); simplify_eq;
      try (by left); done.
  - done.
Qed.

Lemma step_first_snapshot ev (s s' : State) :
  first_snapshot_empty s → step ev s = Some s' → first_snapshot_empty s'.
Proof.
  unfold first_snapshot_empty.
  intros Hfirst [->|(new & ->)]%step_history; [done|].
  rewrite lookup_app_l.
  - by rewrite lookup_take_lt by lia.
  - rewrite length_take. apply lookup_lt_Some in Hfirst. lia.
Qed.

(** X1. Whatever the events and whatever annotations the editor is
    mounted with, the run completes, the cursor stays inside the history,
    the first snapshot stays the empty list, and between drags there is no
    drag mode, start point or transient rectangle left. *)
Theorem editor_structural_invariants
    (anns : list Annotation) (evs : list Event) :
  ∃ s, run evs (initial anns) = Some s ∧
       wf s ∧ first_snapshot_empty s ∧ idle_cells s.
Proof.
  assert (∀ evs s, wf s → first_snapshot_empty s → idle_cells s →
            ∃ s', run evs s = Some s' ∧
                  wf s' ∧ first_snapshot_empty s' ∧ idle_cells s') as Hrun.
  { clear. induction evs as [|ev evs IH]; intros s Hwf Hfirst Hidle; cbn [run].
    - by exists s.
    - destruct (step_total ev s Hwf) as [s1 Hs1]. rewrite Hs1. cbn.
      apply IH; [by eapply step_wf | by eapply step_first_snapshot
                | by eapply step_idle_cells]. }
  apply Hrun; [apply initial_wf | done | done].
Qed.

End EditorInvariants.

Section SizeInvariant.
Import Editor.

Lemma large_map (f : Annotation → Annotation) (l : list Annotation) :
  (∀ a, large a → large (f a)) →
  (∀ a, a ∈ l → large a) → ∀ a, a ∈ map f l → large a.
Proof.
  intros Hf Hl a (a0 & <- & Ha0)%list_elem_of_In%in_map_iff.
  apply Hf, Hl. by apply list_elem_of_In.
Qed.

Lemma large_commit (h : list (list Annotation)) (n : nat) (new : list Annotation) :
  (∀ snapshot a, snapshot ∈ h → a ∈ snapshot → large a) →
  (∀ a, a ∈ new → large a) →
  ∀ snapshot a, snapshot ∈ take n h ++ [new] → a ∈ snapshot → large a.
Proof.
  intros Hh Hnew snapshot a [Hin|Hin]%elem_of_app Ha.
  - apply elem_of_take in Hin as (i & Hi & _).
    eapply Hh; [by eapply list_elem_of_lookup_2|done].
  - apply list_elem_of_singleton in Hin as ->. by apply Hnew.
Qed.

Lemma all_large_commit (new : list Annotation) (s : State) :
  all_large s → (∀ a, a ∈ new → large a) →
  all_large (updateAnnotationsWithHistory new s).
Proof.
  intros (Hanns & Hhist & Hrect) Hnew. split; [|split].
  - done.
  - cbn. by apply large_commit.
  - done.
Qed.

Lemma all_large_transfer (s s' : State) :
  annotations s' = annotations s → history s' = history s →
  currentRect s' = currentRect s → all_large s → all_large s'.
Proof. unfold all_large. by intros -> -> ->. Qed.

Lemma all_large_display (snapshot : list Annotation) (k : nat) (s : State) :
  all_large s → history s !! k = Some snapshot →
  all_large (setAnnotations snapshot s).
Proof.
  intros (Hanns & Hhist & Hrect) Hk. split; [|done].
  intros a Ha. eapply Hhist; [by eapply list_elem_of_lookup_2|done].
Qed.

Lemma undo_all_large (s s' : State) : all_large s → undo s = Some s' → all_large s'.
Proof.
  intros Hs [->|(snapshot & Hk & ->)]%undo_cases; [done|].
  eapply (all_large_transfer (setAnnotations snapshot s)); try done.
  by eapply all_large_display.
Qed.

Lemma redo_all_large (s s' : State) : all_large s → redo s = Some s' → all_large s'.
Proof.
  intros Hs [->|(snapshot & Hk & ->)]%redo_cases; [done|].
  eapply (all_large_transfer (setAnnotations snapshot s)); try done.
  by eapply all_large_display.
Qed.

Lemma deleteSelected_all_large (s : State) :
  all_large s → all_large (deleteSelected s).
Proof.
  intros Hs. unfold deleteSelected. case_match; [|done].
  eapply (all_large_transfer (updateAnnotationsWithHistory _ s)); try done.
  apply all_large_commit; [done|].
  intros a [Ha _]%list_elem_of_In%filter_In. apply Hs. by apply list_elem_of_In.
Qed.

Lemma handleMouseDown_all_large v e (s : State) :
  all_large s → all_large (handleMouseDown v e s).
Proof.
  intros Hs. pose proof Hs as (Hanns & Hhist & Hrect).
  unfold handleMouseDown. repeat case_match; try done.
  split; [done|]. split; [done|]. cbn. intros r [= <-]. cbn. lra.
Qed.

Lemma handleMouseMove_all_large v e (s : State) :
  all_large s → all_large (handleMouseMove v e s).
Proof.
  intros Hs. pose proof Hs as (Hanns & Hhist & Hrect).
  assert (∀ nx ny l,
            (∀ a, a ∈ l → large a) →
            ∀ a, a ∈ map (λ a, if is_selected (selectedId s) a
                               then move_to nx ny a else a) l → large a)
    as Hmove.
  { intros nx ny l Hl. apply large_map; [|done]. intros a Ha. by case_match. }
  assert (∀ nw nh l,
            (∀ a, a ∈ l → large a) →
            ∀ a, a ∈ map (λ a, if is_selected (selectedId s) a
                               then resize_to (Qmax 10 nw) (Qmax 10 nh) a
                               else a) l → large a)
    as Hresize.
  { intros nw nh l Hl. apply large_map; [|done]. intros a Ha.
    case_match; [|done]. split; cbn [resize_to width height].
    - eapply Qlt_le_trans; [|apply Q.le_max_l]. lra.
    - eapply Qle_trans; [|apply Q.le_max_l]. lra. }
  unfold handleMouseMove, drag_selected.
  repeat case_match; try done;
    (split; [|split; [exact Hhist|]]); cbn;
    first [ exact Hanns | exact Hrect | by apply Hmove | by apply Hresize
          | intros r [= <-]; apply span_nonneg ].
Qed.

Lemma handleMouseUp_all_large newId (s : State) :
  all_large s → all_large (handleMouseUp newId s).
Proof.
  intros Hs. pose proof Hs as (Hanns & Hhist & Hrect).
  assert (∀ t, all_large t →
            all_large (setDragMode None
                         (setCurrentRect None
                            (setStartPoint None (setIsDrawing false t)))))
    as Hfinish.
  { intros t (Ha & Hh & _). by split; [|split]. }
  unfold handleMouseUp. apply Hfinish.
  destruct (isDrawing s); [|done].
  destruct (keeps_rect s) as [r|] eqn:Hkeep.
  - apply keeps_rect_wide in Hkeep as (_ & Hr & Hwide).
    eapply (all_large_transfer (updateAnnotationsWithHistory _ s)); try done.
    apply all_large_commit; [done|].
    intros a [Ha|Ha]%elem_of_app; [by apply Hanns|].
    apply list_elem_of_singleton in Ha as ->.
    split; cbn [newAnn width height]; [done | by apply Hrect].
  - destruct (dragMode s); [|done]. by apply all_large_commit.
Qed.

Lemma step_all_large ev (s s' : State) :
  all_large s → step ev s = Some s' → all_large s'.
Proof.
  intros Hs. destruct ev; cbn [step]; intros Heq;
    try (by eapply undo_all_large); try (by eapply redo_all_large);
    simplify_eq.
  - by apply handleMouseDown_all_large.
  - by apply handleMouseMove_all_large.
  - by apply handleMouseUp_all_large.
  - by apply handleMouseUp_all_large.
  - destruct Hs as (Hanns & Hhist & Hrect). split; [|done].
    cbn. apply large_map; [|done]. intros a Ha. by case_match.
  - apply all_large_commit; [done|apply Hs].
  - done.
  - revert Heq. unfold handleKeyDown.
    repeat case_match; intros Heq;
      try (by eapply undo_all_large); try (by eapply redo_all_large);
      simplify_eq; try done; by apply deleteSelected_all_large.
  - done.
  - done.
  - by apply deleteSelected_all_large.
Qed.

(** X2. An editor mounted without annotations, on an image displayed at a
    positive scale: whatever the events, every annotation on display and
    every annotation stored in a snapshot is wider than 5 and has a
    non-negative height. *)
Theorem annotations_stay_large (evs : list Event) :
  displayed evs →
  ∃ s, run evs (initial []) = Some s ∧
       (∀ a, a ∈ annotations s → large a) ∧
       (∀ snapshot a, snapshot ∈ history s → a ∈ snapshot → large a).
Proof.
  intros _.
  assert (∀ evs s, wf s → all_large s →
            ∃ s', run evs s = Some s' ∧ wf s' ∧ all_large s') as Hrun.
  { clear. induction evs as [|ev evs IH]; intros s Hwf Hs; cbn [run].
    - by exists s.
    - destruct (step_total ev s Hwf) as [s1 Hs1]. rewrite Hs1. cbn.
      apply IH; [by eapply step_wf | by eapply step_all_large]. }
  destruct (Hrun evs (initial [])) as (s & Hs & _ & Hanns & Hhist & _).
  - apply initial_wf.
  - split; [by intros a ?%elem_of_nil|]. split; [|done].
    cbn. intros snapshot a ->%list_elem_of_singleton. by intros ?%elem_of_nil.
  - by exists s.
Qed.

End SizeInvariant.

(** ** Drag frames *)

Section DragFrames.
Import Editor.

Lemma map_if_labels (p : Annotation → bool) (f : Annotation → Annotation)
    (l : list Annotation) :
  (∀ a, id (f a) = id a ∧ text (f a) = text a ∧ color (f a) = color a) →
  map id (map (λ a, if p a then f a else a) l) = map id l ∧
  map text (map (λ a, if p a then f a else a) l) = map text l ∧
  map color (map (λ a, if p a then f a else a) l) = map color l.
Proof.
  intros Hf. rewrite !map_map.
  repeat split; apply map_ext; intros a; destruct (p a); try done; apply Hf.
Qed.

Lemma frame_keeps_structure v e (s : State) :
  let s' := handleMouseMove v e s in
  history s' = history s ∧ historyIndex s' = historyIndex s ∧
  tool s' = tool s ∧ selectedId s' = selectedId s ∧
  map id (annotations s') = map id (annotations s) ∧
  map text (annotations s') = map text (annotations s) ∧
  map color (annotations s') = map color (annotations s).
Proof.
  unfold handleMouseMove, drag_selected.
  repeat case_match; cbn; repeat split; try done;
    by apply map_if_labels.
Qed.

(** X3. Pointer-moves, in any state and in any number, never touch the
    history, the cursor, the tool or the selection, and never add, remove,
    reorder, relabel or recolor an annotation or change its note. *)
Theorem drag_frames_keep_structure v (es : list MouseEvent) (s : State) :
  let s' := moves v es s in
  history s' = history s ∧ historyIndex s' = historyIndex s ∧
  tool s' = tool s ∧ selectedId s' = selectedId s ∧
  map id (annotations s') = map id (annotations s) ∧
  map text (annotations s') = map text (annotations s) ∧
  map color (annotations s') = map color (annotations s).
Proof.
  unfold moves. revert s.
  induction es as [|e es IH]; intros s; cbn [fold_left]; [done|].
  destruct (IH (handleMouseMove v e s)) as (H1 & H2 & H3 & H4 & H5 & H6 & H7).
  destruct (frame_keeps_structure v e s) as (F1 & F2 & F3 & F4 & F5 & F6 & F7).
  repeat split; congruence.
Qed.

End DragFrames.

(** ** Selecting and moving *)

Section SelectFacts.
Import Editor.

Lemma find_app_skip {A} (f : A → bool) (l1 l2 : list A) :
  (∀ b, b ∈ l1 → f b = false) → List.find f (l1 ++ l2) = List.find f l2.
Proof.
  induction l1 as [|b l1 IH]; intros Hskip; [done|].
  cbn. rewrite (Hskip b) by apply list_elem_of_here.
  apply IH. intros b' Hb'. apply Hskip. by apply list_elem_of_further.
Qed.

Lemma find_all_false {A} (f : A → bool) (l : list A) :
  (∀ b, b ∈ l → f b = false) → List.find f l = None.
Proof.
  intros Hskip. rewrite <- (app_nil_r l). by rewrite find_app_skip.
Qed.

(** The body hit by the pointer is the last one in the list that contains
    the point. *)
Lemma find_topmost (f : Annotation → bool) (below above : list Annotation)
    (a : Annotation) :
  f a = true → (∀ b, b ∈ above → f b = false) →
  List.find f (rev (below ++ a :: above)) = Some a.
Proof.
  intros Ha Habove. rewrite rev_app_distr. cbn [rev].
  rewrite <- app_assoc, find_app_skip.
  - cbn. by rewrite Ha.
  - intros b Hb. apply Habove. by apply list_elem_of_In, in_rev, list_elem_of_In.
Qed.

Lemma handleMouseDown_grab v e (s : State) below a above :
  refs_ready v = true → tool s = SelectTool →
  on_resize_handle v (imgX v e) (imgY v e) s = false →
  annotations s = below ++ a :: above →
  contains (imgX v e) (imgY v e) a = true →
  (∀ b, b ∈ above → contains (imgX v e) (imgY v e) b = false) →
  handleMouseDown v e s = grabbed a (imgX v e) (imgY v e) s.
Proof.
  intros Hv Ht Hhandle Hanns Ha Habove. unfold handleMouseDown.
  rewrite Hv, Ht, Hhandle, Hanns. cbn [negb].
  by rewrite find_topmost.
Qed.

(** Frames of a move drag: only the last pointer position matters. *)
Lemma moves_move v (i : string) (off : Point) (es : list MouseEvent) :
  refs_ready v = true → Js.truthy i = true →
  ∀ s, isDrawing s = true → tool s = SelectTool → selectedId s = Some i →
       dragMode s = Some move → dragOffset s = Some off →
  moves v es s
  = match last es with
    | Some e =>
        setAnnotations
          (map (λ b, if String.eqb (id b) i
                     then move_to (imgX v e - px off) (imgY v e - py off) b
                     else b)
             (annotations s)) s
    | None => s
    end.
Proof.
  intros Hv Hi.
  assert (∀ e s, isDrawing s = true → tool s = SelectTool →
                 selectedId s = Some i → dragMode s = Some move →
                 dragOffset s = Some off →
            handleMouseMove v e s
            = setAnnotations
                (map (λ b, if String.eqb (id b) i
                           then move_to (imgX v e - px off) (imgY v e - py off) b
                           else b)
                   (annotations s)) s) as Hframe.
  { intros e s Hd Ht Hsel Hm Hoff. unfold handleMouseMove, drag_selected.
    rewrite Hd, Hv, Ht, Hsel, Hm, Hoff. cbn [negb orb Js.truthy_opt].
    by rewrite Hi. }
  induction es as [|e es IH]; intros s Hd Ht Hsel Hm Hoff; [done|].
  unfold moves in *. cbn [fold_left].
  rewrite Hframe by done. rewrite IH by done.
  destruct es as [|e' es]; [by cbn|].
  rewrite last_cons_cons.
  destruct (last (e' :: es)) as [e''|] eqn:Hlast;
    [|by apply last_None in Hlast].
  cbn [annotations setAnnotations]. rewrite map_map.
  unfold setAnnotations at 1 3. cbn. f_equal.
  apply map_ext. intros b.
  destruct (String.eqb (id b) i) eqn:Hb; cbn [move_to id]; by rewrite Hb.
Qed.

End SelectFacts.

Section SelectTheorems.
Import Editor.





End SelectTheorems.

(** ** Commits and their undo *)

Section CommitFacts.
Import Editor.

(** Undo right after a commit displays the snapshot that was under the
    cursor before the commit. *)
Lemma undo_committed (t s : State) (new snapshot : list Annotation) :
  wf s → history s !! historyIndex s = Some snapshot →
  history t = take (S (historyIndex s)) (history s) ++ [new] →
  historyIndex t = S (historyIndex s) →
  ∃ t', undo t = Some t' ∧ annotations t' = snapshot ∧
        historyIndex t' = historyIndex s ∧ history t' = history t.
Proof.
  unfold wf. intros Hwf Hsnap Hhist Hidx.
  assert (history t !! (historyIndex t - 1)%nat = Some snapshot) as Hlook.
  { rewrite Hhist, Hidx. replace (S (historyIndex s) - 1)%nat with (historyIndex s) by lia.
    rewrite lookup_app_l by (rewrite length_take; lia).
    by rewrite lookup_take_lt by lia. }
  eexists. unfold undo. rewrite Hidx at 1. cbn [Nat.ltb Nat.leb].
  rewrite Hlook. cbn. split; [done|]. cbn. rewrite Hidx.
  split; [done|]. split; [lia|done].
Qed.

Lemma redo_committed (t s : State) (new : list Annotation) :
  history t = take (S (historyIndex s)) (history s) ++ [new] →
  wf s → historyIndex t = S (historyIndex s) → redo t = Some t.
Proof.
  unfold wf. intros Hhist Hwf Hidx. apply redo_stays.
  rewrite Hhist, Hidx, length_app, length_take, length_cons, length_nil. lia.
Qed.

End CommitFacts.

Section CommitTheorems.
Import Editor.

(** X8. With a valid cursor that points at the displayed list: after a
    commit of any list, one undo displays the previous list again with
    the cursor back where it was, and a redo right after the commit does
    nothing, because the commit dropped the snapshots after the cursor. *)
Theorem commit_then_undo (new : list Annotation) (s : State) :
  wf s → cursor_shown s →
  (∃ s', undo (updateAnnotationsWithHistory new s) = Some s' ∧
         annotations s' = annotations s ∧
         historyIndex s' = historyIndex s) ∧
  redo (updateAnnotationsWithHistory new s)
  = Some (updateAnnotationsWithHistory new s).
Proof.
  intros Hwf Hshown. split.
  - destruct (undo_committed (updateAnnotationsWithHistory new s) s new
                (annotations s) Hwf Hshown)
      as (s' & Hundo & Hanns & Hidx & _).
    + apply commit_history.
    + by apply commit_index.
    + by exists s'.
  - eapply redo_committed; [apply commit_history | done | by apply commit_index].
Qed.

(** X9. Delete with a non-empty selected id: no annotation with that id is
    left, every other annotation stays, in the same order, the selection
    is cleared and the result is committed; with a valid cursor that
    pointed at the displayed list, one undo brings the deleted annotations
    back. *)
Theorem delete_removes_selected (i : string) (s : State) :
  selectedId s = Some i → Js.truthy i = true →
  let s' := deleteSelected s in
  (∀ a, a ∈ annotations s' → id a ≠ i) ∧
  (∀ a, a ∈ annotations s → id a ≠ i → a ∈ annotations s') ∧
  annotations s' `sublist_of` annotations s ∧
  selectedId s' = None ∧ cursor_shown s' ∧
  (wf s → cursor_shown s →
   ∃ s'', undo s' = Some s'' ∧ annotations s'' = annotations s).
Proof.
  intros Hsel Hi s'. subst s'. unfold deleteSelected.
  rewrite Hsel. cbn [Js.truthy_opt]. rewrite Hi.
  set (next := List.filter _ (annotations s)).
  assert (∀ a, a ∈ next ↔ a ∈ annotations s ∧ id a ≠ i) as Hnext.
  { intros a. unfold next. rewrite !list_elem_of_In, filter_In.
    cbn [is_selected]. rewrite negb_true_iff. by rewrite String.eqb_neq. }
  split; [intros a Ha; by apply Hnext|].
  split; [intros a Ha Hne; by apply Hnext|].
  split.
  { unfold next. clear. induction (annotations s) as [|a l IH]; cbn [List.filter].
    - done.
    - destruct (negb _); [by apply sublist_skip | by apply sublist_cons]. }
  split; [done|].
  split; [apply (commit_cursor_shown next s)|].
  intros Hwf Hshown.
  destruct (undo_committed
              (setSelectedId None (updateAnnotationsWithHistory next s)) s next
              (annotations s) Hwf Hshown)
    as (s'' & Hundo & Hanns & _).
  - apply commit_history.
  - by apply commit_index.
  - by exists s''.
Qed.

(** X10. Typing a note changes nothing but the text of the annotations
    with that id and leaves the history alone; the blur that follows
    commits the typed list under the cursor; with a valid cursor that
    pointed at the displayed list before typing, one undo then shows the
    list from before the typing. *)
Theorem text_edit_commits_on_blur (i t : string) (s : State) :
  let s1 := handleTextChange i t s in
  let s2 := onBlur s1 in
  Forall2 (retyped i t) (annotations s) (annotations s1) ∧
  history s1 = history s ∧ historyIndex s1 = historyIndex s ∧
  annotations s2 = annotations s1 ∧ cursor_shown s2 ∧
  (wf s → cursor_shown s →
   ∃ s3, undo s2 = Some s3 ∧ annotations s3 = annotations s).
Proof.
  intros s1 s2. subst s1 s2.
  split.
  { cbn [handleTextChange annotations setAnnotations].
    induction (annotations s) as [|b l IH]; cbn [map]; constructor; [|exact IH].
    unfold retyped. by destruct (String.eqb (id b) i). }
  split; [done|]. split; [done|]. split; [done|].
  split; [apply commit_cursor_shown|].
  intros Hwf Hshown.
  destruct (undo_committed (onBlur (handleTextChange i t s)) s
              (annotations (handleTextChange i t s)) (annotations s)
              Hwf Hshown)
    as (s3 & Hundo & Hanns & _).
  - apply (commit_history _ (handleTextChange i t s)).
  - by apply (commit_index _ (handleTextChange i t s)).
  - by exists s3.
Qed.

End CommitTheorems.

(** ** A generation attempt *)

Section GenerationTheorems.
Import App.

(** X11. A generation attempt, whatever the flattening and the edit
    service do: the edit service is called at most once, the image source
    and the annotations are never changed, and the stored result and the
    stage change only when that one call returned an image, which then is
    the stored result, shown in the result stage without an error. *)
Theorem generateEdit_changes_only_on_success
    (flatten : string → list Annotation → Js.Result string)
    (editImage : string → string → Js.Result string)
    (cleanup : bool) (s : State) :
  let s' := (generateEdit flatten editImage cleanup s).1 in
  let calls := (generateEdit flatten editImage cleanup s).2 in
  (length calls ≤ 1)%nat ∧
  imageSrc s' = imageSrc s ∧ annotations s' = annotations s ∧
  ((generatedImage s' = generatedImage s ∧ stage s' = stage s) ∨
   ∃ call image,
     calls = [call] ∧
     editImage (sent_image call) (sent_instruction call) = Js.Ok image ∧
     generatedImage s' = Some image ∧ stage s' = result ∧
     error s' = None ∧ isProcessing s' = false).
Proof.
  unfold generateEdit.
  destruct (imageSrc s) as [src|] eqn:Hsrc; [|cbn; rewrite Hsrc; auto 10].
  destruct (Js.truthy src); cbn [negb]; [|cbn; rewrite Hsrc; auto 10].
  destruct (prepare flatten cleanup src s) as [call|m];
    [|cbn; rewrite Hsrc; auto 10].
  destruct (editImage (sent_image call) (sent_instruction call)) as [image|m]
    eqn:Hcall; cbn; rewrite Hsrc.
  - split; [lia|]. split; [done|]. split; [done|]. right.
    exists call, image. done.
  - split; [lia|]. auto 10.
Qed.

End GenerationTheorems.

Section SessionTheorems.
Import App.

(** X12. Without an API key, a generation attempt on a loaded image never
    consults the remote API, stores no result and stays in its stage; it
    ends with an error on display: the missing-key message, unless
    flattening had already failed. *)
Theorem missing_credential_is_reported
    (b : Canvas.Browser) (api api' : Gemini.Api) (cleanup : bool)
    (s : State) (src : string) :
  imageSrc s = Some src → Js.truthy src = true →
  let s' := (Session.generateEdit b "" api cleanup s).1 in
  Session.generateEdit b "" api cleanup s
  = Session.generateEdit b "" api' cleanup s ∧
  generatedImage s' = generatedImage s ∧ stage s' = stage s ∧
  isProcessing s' = false ∧
  (error s'
   = Some "API Key not found. Please set the API_KEY environment variable." ∨
   ∃ message,
     Canvas.flattenAnnotations b src (annotations s) "image/png"
     = Js.Throw message ∧
     error s' = Some (Js.or_else (Some message)
                        "Something went wrong during generation.")).
Proof.
  intros Hsrc Htruthy. unfold Session.generateEdit, generateEdit.
  rewrite Hsrc, Htruthy. cbn [negb].
  destruct (prepare _ cleanup src s) as [call|m] eqn:Hprep.
  - cbn. repeat split; try done. by left.
  - cbn. repeat split; try done. right. exists m. split; [|done].
    revert Hprep. unfold prepare. destruct (cleanup && _); [done|].
    destruct (Canvas.flattenAnnotations _ _ _ _); cbn [Js.bind]; [done|].
    by intros [= ->].
Qed.

(** X13. With an API key, when the remote call for the prepared image
    and instruction rejects, the attempt ends after that one call with the
    rejection's message on display, or the service's fixed message when
    the rejection has none; the stored result and the stage are kept. *)
Theorem remote_failure_is_reported
    (b : Canvas.Browser) (apiKey : string) (api : Gemini.Api)
    (cleanup : bool) (s : State) (src message : string) (call : Call) :
  imageSrc s = Some src → Js.truthy src = true → Js.truthy apiKey = true →
  prepare (λ src anns, Canvas.flattenAnnotations b src anns "image/png")
    cleanup src s = Js.Ok call →
  api (Gemini.request (sent_image call) (sent_instruction call) "image/png")
  = Js.Throw message →
  let s' := (Session.generateEdit b apiKey api cleanup s).1 in
  (Session.generateEdit b apiKey api cleanup s).2 = [call] ∧
  error s' = Some (if Js.truthy message then message
                   else "Failed to process image with Gemini.") ∧
  generatedImage s' = generatedImage s ∧ stage s' = stage s ∧
  isProcessing s' = false.
Proof.
  intros Hsrc Htruthy Hkey Hprep Hapi.
  unfold Session.generateEdit, generateEdit.
  rewrite Hsrc, Htruthy, Hprep. cbn [negb].
  unfold Gemini.editImage. rewrite Hkey, Hapi. cbn.
  destruct (Js.truthy message) eqn:Hm; cbn; rewrite ?Hm; done.
Qed.

End SessionTheorems.

(** ** File intake *)

Section UploadTheorems.
Import Downscale.

Lemma to_unsigned_long_le (q : Q) (k : N) :
  (0 <= q)%Q → (q <= of_N k)%Q → (Z.of_N k < 2 ^ 32)%Z →
  (to_unsigned_long q ≤ k)%N.
Proof.
  intros Hlo Hhi Hk. unfold to_unsigned_long.
  assert (0 ≤ Qnum q)%Z as Hnum.
  { unfold Qle in Hlo. cbn in Hlo. lia. }
  rewrite Z.quot_div_nonneg by (done || apply Pos2Z.is_pos).
  replace (Qnum q / QDen q)%Z with (Qfloor q) by (by destruct q).
  assert (0 ≤ Qfloor q)%Z as Hfloor0.
  { change 0%Z with (Qfloor 0). by apply Qfloor_resp_le. }
  assert (Qfloor q ≤ Z.of_N k)%Z as Hfloor.
  { rewrite <- (Qfloor_Z (Z.of_N k)). by apply Qfloor_resp_le. }
  rewrite Z.mod_small by lia. lia.
Qed.

Lemma of_N_le (a b : N) : (a ≤ b)%N → (of_N a <= of_N b)%Q.
Proof. intros Hle. unfold of_N. rewrite <- Zle_Qle. lia. Qed.

Lemma of_N_pos (a : N) : (0 < a)%N → (0 < of_N a)%Q.
Proof. intros Hpos. unfold of_N. change 0%Q with (inject_Z 0). rewrite <- Zlt_Qlt. lia. Qed.

Lemma scale_bounds (w h : N) :
  (0 < w)%N → (0 < h)%N →
  (MAX_IMAGE_DIMENSION < w ∨ MAX_IMAGE_DIMENSION < h)%N →
  let scale := Qmin (of_N MAX_IMAGE_DIMENSION / of_N w)
                    (of_N MAX_IMAGE_DIMENSION / of_N h) in
  (0 <= scale)%Q ∧ (scale <= 1)%Q ∧
  (of_N w * scale <= of_N MAX_IMAGE_DIMENSION)%Q ∧
  (of_N h * scale <= of_N MAX_IMAGE_DIMENSION)%Q.
Proof.
  intros Hw Hh Hbig scale.
  assert (0 < of_N w)%Q as Hw' by (by apply of_N_pos).
  assert (0 < of_N h)%Q as Hh' by (by apply of_N_pos).
  assert (0 < of_N MAX_IMAGE_DIMENSION)%Q as HM by q_closed.
  set (M := of_N MAX_IMAGE_DIMENSION) in *.
  assert (0 <= M / of_N w)%Q as Hrw by (apply Qle_shift_div_l; lra).
  assert (0 <= M / of_N h)%Q as Hrh by (apply Qle_shift_div_l; lra).
  assert (scale <= M / of_N w)%Q as Hsw by apply Q.le_min_l.
  assert (scale <= M / of_N h)%Q as Hsh by apply Q.le_min_r.
  assert (of_N w * (M / of_N w) == M)%Q as Hcw by (field; lra).
  assert (of_N h * (M / of_N h) == M)%Q as Hch by (field; lra).
  split; [by apply Q.min_glb|].
  split.
  - destruct Hbig as [Hbig|Hbig].
    + assert (M <= of_N w)%Q as Hle by (apply of_N_le; lia).
      eapply Qle_trans; [exact Hsw|]. apply Qle_shift_div_r; lra.
    + assert (M <= of_N h)%Q as Hle by (apply of_N_le; lia).
      eapply Qle_trans; [exact Hsh|]. apply Qle_shift_div_r; lra.
  - split.
    + eapply Qle_trans; [apply Qmult_le_l; [done|exact Hsw]|].
      rewrite Hcw. apply Qle_refl.
    + eapply Qle_trans; [apply Qmult_le_l; [done|exact Hsh]|].
      rewrite Hch. apply Qle_refl.
Qed.

(** X14. A file that is read and decoded into an image of positive
    width and height: when neither side exceeds 4096 the promise resolves
    with the data URL exactly as it was read; otherwise, with a 2d
    context, it resolves with the encoding, in the file's type at quality
    0.9, of a canvas whose width and height are at most 4096 and at most
    those of the image. *)
Theorem downscale_bounds (b : Canvas.Browser) (f : FileApi) (file : File)
    (url : string) (img : Canvas.HTMLImageElement) :
  readAsDataURL f file = Some (Some url) → Js.truthy url = true →
  Canvas.loadImage b url = Js.Ok img →
  (0 < width_of f img)%N → (0 < height_of f img)%N →
  ((width_of f img ≤ 4096)%N → (height_of f img ≤ 4096)%N →
   downscaleImageIfNeeded b f file = Resolved url) ∧
  ((4096 < width_of f img ∨ 4096 < height_of f img)%N →
   Canvas.has_2d_context b = true →
   downscaleImageIfNeeded b f file
   = Resolved (encode f (scaled_canvas f img) (ftype file) (9 # 10)) ∧
   (swidth (scaled_canvas f img) ≤ 4096)%N ∧
   (sheight (scaled_canvas f img) ≤ 4096)%N ∧
   (swidth (scaled_canvas f img) ≤ width_of f img)%N ∧
   (sheight (scaled_canvas f img) ≤ height_of f img)%N).
Proof.
  intros Hread Hurl Hload Hw Hh.
  unfold downscaleImageIfNeeded. rewrite Hread.
  cbn [Js.truthy_opt]. rewrite Hurl. cbn [negb]. cbv zeta.
  change (default EmptyString (Some url)) with url. rewrite Hload.
  split.
  - intros Hsw Hsh.
    apply N.leb_le in Hsw, Hsh. unfold MAX_IMAGE_DIMENSION.
    by rewrite Hsw, Hsh.
  - intros Hbig Hctx.
    assert ((width_of f img <=? MAX_IMAGE_DIMENSION)%N
            && (height_of f img <=? MAX_IMAGE_DIMENSION)%N = false) as ->.
    { apply andb_false_iff. unfold MAX_IMAGE_DIMENSION.
      destruct Hbig; [left|right]; apply N.leb_gt; lia. }
    rewrite Hctx. cbn [negb]. split; [done|].
    destruct (scale_bounds (width_of f img) (height_of f img) Hw Hh Hbig)
      as (Hs0 & Hs1 & HwM & HhM).
    set (scale := Qmin _ _) in *.
    assert (0 < of_N (width_of f img))%Q as Hw0 by (by apply of_N_pos).
    assert (0 < of_N (height_of f img))%Q as Hh0 by (by apply of_N_pos).
    assert (0 <= of_N (width_of f img) * scale)%Q as Hpw
      by (apply Qmult_le_0_compat; [lra|done]).
    assert (0 <= of_N (height_of f img) * scale)%Q as Hph
      by (apply Qmult_le_0_compat; [lra|done]).
    assert (of_N (width_of f img) * scale <= of_N (width_of f img))%Q as Hlw.
    { rewrite <- (Qmult_1_r (of_N (width_of f img))) at 2.
      by apply Qmult_le_l. }
    assert (of_N (height_of f img) * scale <= of_N (height_of f img))%Q as Hlh.
    { rewrite <- (Qmult_1_r (of_N (height_of f img))) at 2.
      by apply Qmult_le_l. }
    cbn [scaled_canvas swidth sheight]. fold scale.
    repeat split.
    + by apply (to_unsigned_long_le _ 4096).
    + by apply (to_unsigned_long_le _ 4096).
    + destruct (N.le_gt_cases (width_of f img) 4096) as [Hsmall|Hlarge].
      * apply to_unsigned_long_le; [done|done|]. lia.
      * etrans; [by apply (to_unsigned_long_le _ 4096)|]. lia.
    + destruct (N.le_gt_cases (height_of f img) 4096) as [Hsmall|Hlarge].
      * apply to_unsigned_long_le; [done|done|]. lia.
      * etrans; [by apply (to_unsigned_long_le _ 4096)|]. lia.
Qed.

End UploadTheorems.

Section IntakeTheorems.
Import Downscale.

(** X15. File intake: the editor is entered only for a file whose type
    starts with the image prefix and whose processing resolved, and then
    on the processed image with an empty annotation list and no error; in
    every other case the stage, the image and the annotations are kept.
    A file of another type is turned away without being processed, and
    the stored result is never touched. *)
Theorem handleFile_outcomes
    (downscale : File → Promise string) (file : File) (s : App.State) :
  let s' := Session.handleFile downscale file s in
  App.generatedImage s' = App.generatedImage s ∧
  ((∃ processedSrc,
      String.prefix "image/" (ftype file) = true ∧
      downscale file = Resolved processedSrc ∧
      App.stage s' = App.edit ∧ App.imageSrc s' = Some processedSrc ∧
      App.annotations s' = [] ∧ App.error s' = None) ∨
   (App.stage s' = App.stage s ∧ App.imageSrc s' = App.imageSrc s ∧
    App.annotations s' = App.annotations s)) ∧
  (String.prefix "image/" (ftype file) = false →
   App.error s' = Some "Please upload a valid image file." ∧
   ∀ downscale', Session.handleFile downscale' file s = s').
Proof.
  unfold Session.handleFile.
  destruct (String.prefix "image/" (ftype file)) eqn:Htype; cbn [negb].
  - destruct (downscale file) as [src| |] eqn:Hd; cbn.
    + split; [done|]. split; [|done]. left. by exists src.
    + split; [done|]. split; [|done]. by right.
    + split; [done|]. split; [|done]. by right.
  - cbn. split; [done|]. split; [by right|]. done.
Qed.

(** X16. A file of an image type that is read but that the browser cannot
    decode: the upload ends without an image and without any error on
    display; stage, image and annotations are as before. *)
Theorem undecodable_file_is_silent
    (b : Canvas.Browser) (f : FileApi) (file : File) (s : App.State)
    (url message : string) :
  String.prefix "image/" (ftype file) = true →
  readAsDataURL f file = Some (Some url) → Js.truthy url = true →
  Canvas.loadImage b url = Js.Throw message →
  Session.upload b f file s = Session.setError None s.
Proof.
  intros Htype Hread Hurl Hload.
  unfold Session.upload, Session.handleFile, downscaleImageIfNeeded.
  rewrite Htype, Hread. cbn [negb Js.truthy_opt]. rewrite Hurl.
  cbn [negb]. cbv zeta.
  change (default EmptyString (Some url)) with url. by rewrite Hload.
Qed.

End IntakeTheorems.

(** ** Strings *)

Section StringFacts.

Lemma string_app_cons (ch : ascii) (a b : string) :
  String ch a +:+ b = String ch (a +:+ b).
Proof. reflexivity. Qed.

Lemma string_app_nil_l (b : string) : EmptyString +:+ b = b.
Proof. reflexivity. Qed.

Lemma string_app_assoc (a b c : string) : (a +:+ b) +:+ c = a +:+ (b +:+ c).
Proof.
  induction a as [|ch a IH]; [done|].
  by rewrite !string_app_cons, IH.
Qed.

Lemma string_app_nil_r (a : string) : a +:+ EmptyString = a.
Proof.
  induction a as [|ch a IH]; [done|]. by rewrite string_app_cons, IH.
Qed.

Lemma split_on_nonempty (sep : ascii) (s : string) : Js.split_on sep s ≠ [].
Proof.
  destruct s as [|c s]; cbn [Js.split_on]; [done|].
  destruct (Ascii.eqb c sep); [done|]. by destruct (Js.split_on sep s).
Qed.

(** Splitting at spaces loses nothing: the words, each followed by a
    space, spell the string followed by a space. *)
Lemma spaced_split (s : string) : spaced (Js.split_on " " s) = s +:+ " ".
Proof.
  induction s as [|c s IH]; cbn [Js.split_on]; [done|].
  destruct (Ascii.eqb c " ") eqn:Hc.
  - apply Ascii.eqb_eq in Hc as ->. cbn [spaced fold_right].
    fold (spaced (Js.split_on " " s)). rewrite IH. done.
  - destruct (Js.split_on " " s) as [|w ws] eqn:Hsplit.
    + by apply split_on_nonempty in Hsplit.
    + cbn [spaced fold_right] in *.
      by rewrite (string_app_cons c w), (string_app_cons c s), IH.
Qed.

Lemma split_on_without (sep : ascii) (s : string) :
  has_char sep s = false → Js.split_on sep s = [s].
Proof.
  induction s as [|c s IH]; cbn [has_char Js.split_on]; [done|].
  intros [Hc Hs]%orb_false_iff. rewrite Hc, (IH Hs). done.
Qed.

Lemma split_on_header (sep : ascii) (header rest : string) :
  has_char sep header = false →
  Js.split_on sep (header +:+ String sep rest) = header :: Js.split_on sep rest.
Proof.
  induction header as [|c h IH]; rewrite ?string_app_cons, ?string_app_nil_l;
    cbn [has_char Js.split_on].
  - intros _. by rewrite Ascii.eqb_refl.
  - intros [Hc Hh]%orb_false_iff. rewrite Hc, (IH Hh). done.
Qed.

End StringFacts.

Section RequestTheorems.

(** X17. A data URL whose header and payload hold no comma and whose
    payload is not empty is sent to the API as its payload alone, and a
    comma-free payload that comes without a header is sent unchanged: the
    image returned by one call, sent again, delivers the same data. *)
Theorem request_strips_header (header payload prompt mimeType : string) :
  has_char "," header = false → has_char "," payload = false →
  Js.truthy payload = true →
  Gemini.image_data
    (Gemini.request (header +:+ "," +:+ payload) prompt mimeType) = payload ∧
  Gemini.image_data (Gemini.request payload prompt mimeType) = payload.
Proof.
  intros Hheader Hpayload Htruthy. unfold Gemini.request.
  cbn [Gemini.image_data]. split.
  - change (header +:+ "," +:+ payload) with (header +:+ String "," payload).
    rewrite split_on_header, split_on_without by done.
    cbn. by rewrite Htruthy.
  - rewrite split_on_without by done. done.
Qed.

End RequestTheorems.

(** ** What flattening paints *)

Section PaintingFacts.
Import Canvas.

Lemma drawn_text_app (ops ops' : list DrawOp) :
  drawn_text (ops ++ ops') = drawn_text ops +:+ drawn_text ops'.
Proof.
  induction ops as [|op ops IH]; [done|].
  rewrite <- app_comm_cons. destruct op; cbn [drawn_text]; try done.
  by rewrite IH, string_app_assoc.
Qed.

(** The word-wrap loop: the lines it paints and the line it leaves, read
    in order, spell the line it started from and the words; each painted
    line and the line left fits or is a single word. *)
Lemma wrap_painted b (maxWidth tx lineHeight : Q) (allwords words : list string) :
  (∀ w, w ∈ words → w ∈ allwords) →
  ∀ (first : bool) (line : string) (ty : Q) (c : HTMLCanvasElement),
    (first = true → line = EmptyString) →
    (first = false → fits_or_single b (font c) maxWidth allwords line) →
    let r := wrap b maxWidth tx lineHeight first words line ty c in
    ∃ lines,
      painted r.2 = painted c ++ lines ∧
      Forall (λ op, ∃ t ty',
                op = FillText (font c) (fillStyle c) (textBaseline c) t tx ty' ∧
                fits_or_single b (font c) maxWidth allwords t) lines ∧
      drawn_text lines +:+ r.1.1 = line +:+ spaced words ∧
      font r.2 = font c ∧ fillStyle r.2 = fillStyle c ∧
      textBaseline r.2 = textBaseline c ∧
      (first = false ∨ words ≠ [] →
       fits_or_single b (font c) maxWidth allwords r.1.1).
Proof.
  induction words as [|w rest IH]; intros Hsub first line ty c Hfirst Hline r;
    subst r; cbn [wrap].
  - exists []. rewrite app_nil_r. cbn [spaced fold_right drawn_text fst snd].
    rewrite string_app_nil_r.
    repeat split; try done. intros [Hf|Hne]; [by apply Hline|done].
  - assert (w ∈ allwords) as Hw by (apply Hsub, list_elem_of_here).
    assert (∀ w', w' ∈ rest → w' ∈ allwords) as Hrest
      by (intros w' Hw'; by apply Hsub, list_elem_of_further).
    destruct (Js.gt (measureText b (font c) (line +:+ w +:+ " ")) maxWidth
              && negb first) eqn:Hcond.
    + apply andb_true_iff in Hcond as [Hgt Hf]. apply negb_true_iff in Hf.
      destruct (IH Hrest false (w +:+ " ") (ty + lineHeight)%Q
                  (fillText line tx ty c))
        as (lines & Hp & Hall & Htext & Hfont & Hfill & Hbase & Hleft).
      { done. }
      { intros _. right. by exists w. }
      exists (FillText (font c) (fillStyle c) (textBaseline c) line tx ty :: lines).
      split; [by rewrite Hp; cbn; rewrite <- app_assoc|].
      split.
      { constructor; [|exact Hall]. exists line, ty. split; [done|]. by apply Hline. }
      split.
      { cbn [drawn_text spaced fold_right]. fold (spaced rest).
        rewrite string_app_assoc, Htext. by rewrite <- !string_app_assoc. }
      split; [exact Hfont|]. split; [exact Hfill|]. split; [exact Hbase|].
      intros _. apply Hleft. by left.
    + destruct (IH Hrest false (line +:+ w +:+ " ") ty c)
        as (lines & Hp & Hall & Htext & Hfont & Hfill & Hbase & Hleft).
      { done. }
      { intros _. destruct first.
        - right. exists w. split; [done|]. by rewrite Hfirst.
        - left. rewrite andb_true_r in Hcond. by apply gt_false. }
      exists lines.
      split; [exact Hp|]. split; [exact Hall|].
      split.
      { rewrite Htext. cbn [spaced fold_right]. fold (spaced rest).
        by rewrite !string_app_assoc. }
      split; [exact Hfont|]. split; [exact Hfill|]. split; [exact Hbase|].
      intros _. apply Hleft. by left.
Qed.

(** What one annotation adds to the canvas: its stroke, then the lines of
    its note. *)
Lemma drawAnnotation_painted b img (c : HTMLCanvasElement) (ann : Annotation) :
  ∃ lines,
    painted (drawAnnotation b img c ann) = painted c ++ stroke_of ann :: lines ∧
    Forall (note_line b img ann) lines ∧
    drawn_text lines = note_text ann.
Proof.
  unfold drawAnnotation, note_text.
  destruct (Js.truthy (text ann)) eqn:Htext.
  - set (c1 := set_textBaseline "top" _).
    set (words := Js.split_on " " (text ann)).
    destruct (wrap_painted b (width ann - 10) (x ann + 5)
                (inject_Z (Z.of_N (N.max 16 (iwidth img / 50))) * (12 # 10))
                words words (λ w Hw, Hw) true EmptyString (y ann + 5)%Q c1)
      as (lines & Hp & Hall & Hspell & Hf & Hs & Ht & Hleft); [done|done|].
    destruct (wrap b _ _ _ true words EmptyString _ c1) as [[line ty] c2] eqn:Hwrap.
    cbn [fst snd] in *.
    exists (lines ++ [FillText (note_font img) (COLOR_MAP (color ann)) "top"
                        line (x ann + 5) ty]).
    split; [|split].
    + cbn [fillText paint painted]. rewrite Hp, Hf, Hs, Ht.
      subst c1. cbn. by rewrite <- !app_assoc.
    + apply Forall_app. split.
      * eapply Forall_impl; [exact Hall|].
        intros op (t & ty' & -> & Hfit). by repeat split.
      * constructor; [|done]. repeat split.
        apply Hleft. right. apply split_on_nonempty.
    + rewrite drawn_text_app. cbn [drawn_text]. rewrite string_app_nil_r.
      rewrite Hspell. cbn [String.append]. apply spaced_split.
  - exists []. done.
Qed.

End PaintingFacts.

Section PaintingTheorems.
Import Canvas.

Lemma fold_painted b img (anns : list Annotation) :
  ∀ c, ∃ rest,
    painted (fold_left (drawAnnotation b img) anns c) = painted c ++ rest ∧
    List.filter is_stroke rest = map stroke_of anns ∧
    drawn_text rest = all_notes anns ∧
    Forall (λ op, is_stroke op = true ∨
                  ∃ ann, ann ∈ anns ∧ note_line b img ann op) rest.
Proof.
  induction anns as [|ann anns IH]; intros c; cbn [fold_left].
  - exists []. by rewrite app_nil_r.
  - destruct (drawAnnotation_painted b img c ann) as (lines & Hp & Hall & Htext).
    destruct (IH (drawAnnotation b img c ann)) as (rest & Hp' & Hs & Ht & Hl).
    exists (stroke_of ann :: lines ++ rest).
    split; [by rewrite Hp', Hp, <- app_assoc|].
    split; [|split].
    + cbn [List.filter is_stroke stroke_of map]. f_equal.
      rewrite List.filter_app, Hs.
      replace (List.filter is_stroke lines) with (@nil DrawOp); [done|].
      symmetry. clear -Hall. induction Hall as [|op lines Hop _ IH]; [done|].
      cbn [List.filter]. by destruct op.
    + cbn [drawn_text stroke_of all_notes fold_right].
      fold (all_notes anns). by rewrite drawn_text_app, Htext, Ht.
    + constructor; [by left|]. apply Forall_app. split.
      * eapply Forall_impl; [exact Hall|]. intros op Hop. right.
        exists ann. split; [apply list_elem_of_here|done].
      * eapply Forall_impl; [exact Hl|].
        intros op [Hop|(ann' & Hin & Hop)]; [by left|right].
        exists ann'. split; [by apply list_elem_of_further|done].
Qed.

(** X18. What flattening paints starts with the image at the origin,
    drawn once, and holds exactly one stroke per annotation, in the
    order of the list, in the annotation's color, 3 wide, along the
    annotation's rectangle. *)
Theorem flatten_strokes_every_annotation
    (b : Browser) (img : HTMLImageElement) (anns : list Annotation) :
  ∃ rest,
    painted (flattened b img anns) = DrawImage img 0 0 :: rest ∧
    List.filter is_stroke rest = map stroke_of anns ∧
    List.filter is_image rest = [].
Proof.
  unfold flattened.
  destruct (fold_painted b img anns
              (drawImage img 0 0
                 (set_height (naturalHeight img)
                    (set_width (naturalWidth img) createCanvas))))
    as (rest & Hp & Hs & _ & Hl).
  exists rest. split; [exact Hp|]. split; [exact Hs|].
  clear -Hl. induction Hl as [|op rest Hop _ IH]; [done|].
  cbn [List.filter].
  destruct op; try done.
  destruct Hop as [Hop|(ann & _ & Hop)]; done.
Qed.

(** X19. The text that flattening paints, read in painting order, is the
    notes of the annotations in the order of the list, each non-empty note
    followed by one space: word wrapping drops, adds and reorders
    nothing. *)
Theorem flatten_preserves_notes
    (b : Browser) (img : HTMLImageElement) (anns : list Annotation) :
  drawn_text (painted (flattened b img anns)) = all_notes anns.
Proof.
  unfold flattened.
  destruct (fold_painted b img anns
              (drawImage img 0 0
                 (set_height (naturalHeight img)
                    (set_width (naturalWidth img) createCanvas))))
    as (rest & Hp & _ & Ht & _).
  rewrite Hp. exact Ht.
Qed.

(** X20. Every line of text that flattening paints belongs to an
    annotation of the list: it is in that annotation's color, in the bold
    note font of at least 16 pixels, 5 pixels right of the box's left
    side, and it fits the box's width less 10 unless it is one word of the
    note on its own. *)
Theorem note_lines_fit
    (b : Browser) (img : HTMLImageElement) (anns : list Annotation) :
  Forall (λ op, is_image op = true ∨ is_stroke op = true ∨
                ∃ ann, ann ∈ anns ∧ note_line b img ann op)
    (painted (flattened b img anns)).
Proof.
  unfold flattened.
  destruct (fold_painted b img anns
              (drawImage img 0 0
                 (set_height (naturalHeight img)
                    (set_width (naturalWidth img) createCanvas))))
    as (rest & Hp & _ & _ & Hl).
  rewrite Hp. constructor; [by left|].
  eapply Forall_impl; [exact Hl|]. intros op Hop. by right.
Qed.

End PaintingTheorems.

(** ** Dragging the divider *)

Section SliderTheorems.
Import CompareSlider.

Lemma clamp_mono (w a a' : Q) :
  (a <= a')%Q → (Qmax 0 (Qmin a w) <= Qmax 0 (Qmin a' w))%Q.
Proof.
  intros Hle. apply Q.max_le_compat_l. by apply Q.min_le_compat_r.
Qed.

Lemma percent_le (w x x' : Q) :
  (0 < w)%Q → (x <= x')%Q → (x / w * 100 <= x' / w * 100)%Q.
Proof.
  intros Hw Hle.
  assert (x / w <= x' / w)%Q as Hdiv.
  { unfold Qdiv. apply Qmult_le_compat_r; [done|].
    apply Qlt_le_weak. by apply Qinv_lt_0_compat. }
  lra.
Qed.

(** X21. With a container of positive width the divider follows the
    pointer: it is at 0 when the pointer is at or left of the container's
    left side, at 100 when it is at or right of the right side, in between
    it is the pointer's distance from the left side as a percentage of the
    width, and it never moves against the pointer. *)
Theorem divider_tracks_pointer (rect : DOMRect) (clientX clientX' position : Q) :
  (0 < width rect)%Q →
  ((clientX <= left rect)%Q →
   (handleMove (Some rect) clientX position == 0)%Q) ∧
  ((left rect + width rect <= clientX)%Q →
   (handleMove (Some rect) clientX position == 100)%Q) ∧
  ((left rect <= clientX)%Q → (clientX <= left rect + width rect)%Q →
   (handleMove (Some rect) clientX position
    == (clientX - left rect) / width rect * 100)%Q) ∧
  ((clientX <= clientX')%Q →
   (handleMove (Some rect) clientX position
    <= handleMove (Some rect) clientX' position)%Q).
Proof.
  intros Hw. cbn [handleMove]. repeat split.
  - intros Hleft.
    rewrite Q.min_l, Q.max_l by lra. field. lra.
  - intros Hright.
    rewrite Q.min_r, Q.max_r by lra. field. lra.
  - intros Hlo Hhi.
    rewrite Q.min_l, Q.max_r by lra. reflexivity.
  - intros Hle. apply percent_le; [done|]. apply clamp_mono. lra.
Qed.

Lemma onMove_in_range container clientX (s : Slider.State) :
  (∀ rect, container = Some rect → (0 < width rect)%Q) →
  (0 <= Slider.position s)%Q ∧ (Slider.position s <= 100)%Q →
  (0 <= Slider.position (Slider.onMove container clientX s))%Q ∧
  (Slider.position (Slider.onMove container clientX s) <= 100)%Q.
Proof.
  intros Hrect Hs. unfold Slider.onMove.
  destruct (Slider.isDragging s); cbn [negb]; [|done].
  destruct container as [rect|]; [|done].
  cbn [Slider.position handleMove].
  destruct (clamped_pointer rect clientX (Hrect rect eq_refl)) as [Hlo Hhi].
  assert (0 < width rect)%Q as Hw by (by apply Hrect).
  set (x := Qmax 0 (Qmin (clientX - left rect) (width rect))) in *.
  assert (0 <= x / width rect)%Q by (apply Qle_shift_div_l; [done | lra]).
  assert (x / width rect <= 1)%Q by (apply Qle_shift_div_r; [done | lra]).
  split; lra.
Qed.

(** X22. From the initial position 50, whatever presses, moves and
    releases follow, with containers of positive width, the divider
    position stays between 0 and 100. *)
Theorem slider_stays_in_range (evs : list Slider.Event) :
  laid_out evs →
  (0 <= Slider.position (Slider.run evs Slider.initial))%Q ∧
  (Slider.position (Slider.run evs Slider.initial) <= 100)%Q.
Proof.
  assert (∀ s, laid_out evs →
            (0 <= Slider.position s)%Q ∧ (Slider.position s <= 100)%Q →
            (0 <= Slider.position (Slider.run evs s))%Q ∧
            (Slider.position (Slider.run evs s) <= 100)%Q) as Hrun.
  { unfold Slider.run. induction evs as [|ev evs IH]; intros s Hlaid Hs; [done|].
    cbn [fold_left]. inversion Hlaid as [|? ? Hev Hevs]; subst.
    apply IH; [done|].
    destruct ev as [| |container cx|container cx| |]; cbn [Slider.step Slider.position];
      try done; apply onMove_in_range; try done;
      intros rect ->; exact Hev. }
  intros Hlaid. apply Hrun; [done|]. cbn. split; lra.
Qed.

(** X23. While no drag is in progress, moves and releases, however many,
    leave the divider where it is: only a press lets it move. *)
Theorem slider_moves_only_while_dragging
    (evs : list Slider.Event) (s : Slider.State) :
  Slider.isDragging s = false → no_press evs →
  Slider.run evs s = s.
Proof.
  unfold Slider.run. revert s.
  induction evs as [|ev evs IH]; intros s Hs Hnone; [done|].
  cbn [fold_left]. inversion Hnone as [|? ? Hev Hevs]; subst.
  assert (Slider.step ev s = s) as ->.
  { destruct ev; cbn [Slider.step]; try done.
    - unfold Slider.onMove. by rewrite Hs.
    - unfold Slider.onMove. by rewrite Hs.
    - destruct s. cbn in *. by subst.
    - destruct s. cbn in *. by subst. }
  by apply IH.
Qed.

End SliderTheorems.

(** ** Undoing everything, and undoing a drawn box *)

Section UndoTheorems.
Import Editor.

Lemma undo_times_first (n : nat) :
  ∀ s, historyIndex s = n → wf s →
  ∃ s', undo_times n s = Some s' ∧ historyIndex s' = 0%nat ∧
        history s' = history s ∧
        ((0 < n)%nat → history s !! 0%nat = Some (annotations s')).
Proof.
  induction n as [|n IH]; intros s Hidx Hwf; cbn [undo_times].
  - exists s. repeat split; try done. lia.
  - destruct (undo_moves s Hwf) as (snapshot & Hsnap & Hundo); [lia|].
    rewrite Hundo. cbn.
    set (s1 := setSelectedId None
                 (setAnnotations snapshot (setHistoryIndex (historyIndex s - 1) s))).
    destruct (IH s1) as (s' & Hrun & Hzero & Hhist & Hfirst).
    { cbn. lia. }
    { unfold wf in *. cbn. lia. }
    exists s'. split; [exact Hrun|]. split; [exact Hzero|]. split; [exact Hhist|].
    intros _. destruct n as [|n].
    + cbn in Hrun. simplify_eq. cbn. rewrite <- Hsnap. f_equal. lia.
    + apply Hfirst. lia.
Qed.

(** X24. With a valid cursor beyond the first snapshot and a history that
    starts with the empty list, as in every reachable state: undoing as
    many times as the cursor is high succeeds, leaves the cursor on the
    first snapshot and displays no annotation at all, with the history
    kept for redo. *)
Theorem undo_all_reaches_empty (s : State) :
  wf s → first_snapshot_empty s → (0 < historyIndex s)%nat →
  ∃ s', undo_times (historyIndex s) s = Some s' ∧
        historyIndex s' = 0%nat ∧ annotations s' = [] ∧
        history s' = history s.
Proof.
  intros Hwf Hfirst Hpos.
  destruct (undo_times_first (historyIndex s) s eq_refl Hwf)
    as (s' & Hrun & Hzero & Hhist & Hshown).
  exists s'. split; [exact Hrun|]. split; [exact Hzero|]. split; [|exact Hhist].
  specialize (Hshown Hpos). unfold first_snapshot_empty in Hfirst. congruence.
Qed.

Lemma handleMouseUp_keep_state newId start r (s : State) :
  tool s = RectTool → (5 < rwidth r)%Q →
  handleMouseUp newId (drawing start r s)
  = setDragMode None
      (setCurrentRect None
         (setStartPoint None
            (setIsDrawing false
               (setTool SelectTool
                  (setSelectedId (Some newId)
                     (updateAnnotationsWithHistory
                        (annotations s ++ [newAnn newId r (activeColor s)])
                        (drawing start r s))))))).
Proof.
  intros Ht Hw. unfold handleMouseUp, keeps_rect.
  cbn [drawing isDrawing tool currentRect setCurrentRect setStartPoint
       setIsDrawing setSelectedId].
  rewrite Ht, truthy_num_gt by lra.
  apply gt_true in Hw. by rewrite Hw.
Qed.

Lemma drawn_rect_width (r : Rect) (a b : Point) :
  bounding_box r a b → (rwidth r == Qabs (px b - px a))%Q.
Proof.
  intros (Hx & _ & Hr & _). rewrite Qabs_sub_bounds. lra.
Qed.

Lemma drawn_rect_height (r : Rect) (a b : Point) :
  bounding_box r a b → (rheight r == Qabs (py b - py a))%Q.
Proof.
  intros (_ & Hy & _ & Hb). rewrite Qabs_sub_bounds. lra.
Qed.

(** X25. Draw a box wider than 5 with the rectangle tool on a displayed
    image, from a state whose valid cursor points at the displayed list:
    the list grows by one annotation with the fresh id, the active color
    and an empty note; that annotation is selected, the tool switches to
    select, no drag is left in progress, and one undo displays the list
    from before the drawing. *)
Theorem drawn_box_is_selected_and_undoable
    v down (es : list MouseEvent) (newId : string) (s : State) :
  refs_ready v = true → (0 < getScale v)%Q → tool s = RectTool →
  wf s → cursor_shown s →
  (5 < Qabs (imgX v (List.last es down) - imgX v down))%Q →
  let s' := drag v down es newId s in
  (∃ a, annotations s' = annotations s ++ [a] ∧ id a = newId ∧
        text a = EmptyString ∧ color a = activeColor s) ∧
  selectedId s' = Some newId ∧ tool s' = SelectTool ∧
  drag_cells s' = (false, None, None, None) ∧
  ∃ s'', undo s' = Some s'' ∧ annotations s'' = annotations s.
Proof.
  intros Hv _ Ht Hwf Hshown Hwide s'. subst s'.
  destruct (drag_drawing v down es s Hv Ht) as (r & Heq & _ & _ & Hbox).
  assert (5 < rwidth r)%Q as Hw.
  { apply drawn_rect_width in Hbox. cbn [pointer px] in Hbox. lra. }
  unfold drag. rewrite Heq, handleMouseUp_keep_state by done.
  split; [by eexists|]. split; [done|]. split; [done|]. split; [done|].
  set (new := annotations s ++ [newAnn newId r (activeColor s)]).
  match goal with
  | |- ∃ s'', undo ?t = Some s'' ∧ _ =>
      destruct (undo_committed t s new (annotations s) Hwf Hshown)
        as (s'' & Hundo & Hanns & _)
  end.
  - apply (commit_history new (drawing (pointer v down) r s)).
  - apply (commit_index new (drawing (pointer v down) r s)). exact Hwf.
  - by exists s''.
Qed.

End UndoTheorems.

(** ** The dominant color on a tie *)

Section TieBreak.
Context {A : Type} (sort_key : A → Z).

Local Abbreviation cmp_key := (by_key sort_key).

Lemma insert_largest (x : A) (l : list A) :
  (∀ y, y ∈ l → (sort_key y < sort_key x)%Z) →
  Js.insert cmp_key x l = l ++ [x].
Proof.
  induction l as [|y l IH]; intros Hall; cbn [Js.insert]; [done|].
  assert (sort_key y < sort_key x)%Z as Hy by apply Hall, list_elem_of_here.
  replace (cmp_key x y <=? 0)%Z with false
    by (symmetry; apply Z.leb_gt; unfold by_key; lia).
  rewrite IH; [done|]. intros y' Hy'. by apply Hall, list_elem_of_further.
Qed.

Lemma insert_not_largest (x : A) (l : list A) :
  (∃ y, y ∈ l ∧ (sort_key x ≤ sort_key y)%Z) →
  last (Js.insert cmp_key x l) = last l.
Proof.
  induction l as [|y l IH]; intros (z & Hz & Hle); [by apply elem_of_nil in Hz|].
  cbn [Js.insert]. destruct (cmp_key x y <=? 0)%Z eqn:Hcmp.
  - by rewrite last_cons_cons.
  - apply Z.leb_gt in Hcmp. unfold by_key in Hcmp.
    apply elem_of_cons in Hz as [->|Hz]; [lia|].
    assert (last (Js.insert cmp_key x l) = last l) as Hlast
      by (apply IH; by exists z).
    destruct l as [|y' l]; [by apply elem_of_nil in Hz|].
    rewrite last_cons_cons, <- Hlast.
    destruct (Js.insert cmp_key x (y' :: l)) as [|? ?] eqn:Hins; [|done].
    rewrite ?Hins in Hlast. symmetry in Hlast. by apply last_None in Hlast.
Qed.

(** Sorting by a key is stable: the element popped is the last one of the
    list among those with the largest key. *)
Lemma pop_sort_last_max (before after : list A) (a : A) :
  (∀ c, c ∈ before → (sort_key c ≤ sort_key a)%Z) →
  (∀ c, c ∈ after → (sort_key c < sort_key a)%Z) →
  Js.pop (Js.sort cmp_key (before ++ a :: after)) = Some a.
Proof.
  intros Hbefore Hafter. unfold Js.pop.
  induction before as [|x before IH]; cbn [app Js.sort].
  - rewrite insert_largest; [apply last_snoc|].
    intros y Hy. apply Hafter. by rewrite <- (sort_perm cmp_key after).
  - rewrite insert_not_largest.
    + apply IH. intros c Hc. by apply Hbefore, list_elem_of_further.
    + exists a. split; [|apply Hbefore, list_elem_of_here].
      rewrite (sort_perm cmp_key (before ++ a :: after)).
      apply elem_of_app. right. apply list_elem_of_here.
Qed.

End TieBreak.

Section TieBreakTheorems.
Import App.


End TieBreakTheorems.

(** ** Where a drawn box appears *)

Section OverlayTheorems.
Import Editor.

Lemma to_screen_x v e :
  (0 < getScale v)%Q →
  (imgX v e * getScale v == clientX e - rect_left v)%Q.
Proof.
  intros Hs. unfold imgX, getRelativePointerPosition. cbn [px]. field. lra.
Qed.

Lemma to_screen_y v e :
  (0 < getScale v)%Q →
  (imgY v e * getScale v == clientY e - rect_top v)%Q.
Proof.
  intros Hs. unfold imgY, getRelativePointerPosition. cbn [py]. field. lra.
Qed.

Lemma scaled_min (a b k : Q) :
  (0 < k)%Q → (Qmin a b * k == Qmin (a * k) (b * k))%Q.
Proof.
  intros Hk. destruct (Qlt_le_dec a b) as [Hlt|Hle].
  - rewrite Q.min_l by lra.
    rewrite Q.min_l; [reflexivity|]. apply Qmult_le_compat_r; lra.
  - rewrite Q.min_r by lra.
    rewrite Q.min_r; [reflexivity|]. apply Qmult_le_compat_r; lra.
Qed.

Lemma shifted_min (a b k : Q) : (Qmin (a - k) (b - k) == Qmin a b - k)%Q.
Proof.
  destruct (Qlt_le_dec a b) as [Hlt|Hle].
  - rewrite !Q.min_l by lra. reflexivity.
  - rewrite !Q.min_r by lra. reflexivity.
Qed.

Lemma scaled_abs (a k : Q) : (0 < k)%Q → (Qabs a * k == Qabs (a * k))%Q.
Proof.
  intros Hk. rewrite Qabs_Qmult. rewrite (Qabs_pos k) by lra. reflexivity.
Qed.

(** X27. A box drawn on an image displayed at a positive scale and wider
    than 5 is laid over the image exactly where it was dragged: the new
    annotation's box on screen has its left and top side at the smaller
    of the two pointer coordinates, relative to the container, and its
    width and height are the distances between them. *)
Theorem drawn_box_appears_under_pointer
    v down (es : list MouseEvent) (newId : string) (s : State) :
  refs_ready v = true → (0 < getScale v)%Q → tool s = RectTool →
  (5 < Qabs (imgX v (List.last es down) - imgX v down))%Q →
  let up := List.last es down in
  ∃ a, annotations (drag v down es newId s) = annotations s ++ [a] ∧
       (rx (Overlay.style v a)
        == Qmin (clientX down) (clientX up) - rect_left v)%Q ∧
       (ry (Overlay.style v a)
        == Qmin (clientY down) (clientY up) - rect_top v)%Q ∧
       (rwidth (Overlay.style v a) == Qabs (clientX up - clientX down))%Q ∧
       (rheight (Overlay.style v a) == Qabs (clientY up - clientY down))%Q.
Proof.
  intros Hv Hs Ht Hwide up.
  destruct (drag_drawing v down es s Hv Ht) as (r & Heq & _ & _ & Hbox).
  fold up in Hbox, Hwide.
  pose proof (drawn_rect_width r _ _ Hbox) as Hw.
  pose proof (drawn_rect_height r _ _ Hbox) as Hh.
  destruct Hbox as (Hx & Hy & _ & _).
  cbn [pointer px py] in Hx, Hy, Hw, Hh.
  exists (newAnn newId r (activeColor s)).
  split.
  { unfold drag. rewrite Heq. apply handleMouseUp_keep; [done|lra]. }
  pose proof (to_screen_x v down Hs) as Hdx.
  pose proof (to_screen_x v up Hs) as Hux.
  pose proof (to_screen_y v down Hs) as Hdy.
  pose proof (to_screen_y v up Hs) as Huy.
  cbn [Overlay.style newAnn x y width height rx ry rwidth rheight].
  repeat split.
  - rewrite Hx, scaled_min, Hdx, Hux by done.
    apply shifted_min.
  - rewrite Hy, scaled_min, Hdy, Huy by done.
    apply shifted_min.
  - rewrite Hw, scaled_abs by done.
    apply Qabs_wd.
    transitivity (imgX v up * getScale v - imgX v down * getScale v)%Q; [ring|].
    rewrite Hux, Hdx. ring.
  - rewrite Hh, scaled_abs by done.
    apply Qabs_wd.
    transitivity (imgY v up * getScale v - imgY v down * getScale v)%Q; [ring|].
    rewrite Huy, Hdy. ring.
Qed.

End OverlayTheorems.

(** ** The further theorems at sample inputs *)

Section EditorWitnesses.
Import Editor.

Lemma session_displayed : displayed Sample.session.
Proof.
  unfold displayed, Sample.session.
  repeat (constructor; [first [exact I | q_closed]|]). constructor.
Defined.

Lemma annotations_stay_large_witness :
  displayed Sample.session ∧
  ∃ s, run Sample.session (initial []) = Some s ∧
       ∀ a, a ∈ annotations s → large a.
Proof.
  split; [exact session_displayed|].
  destruct (annotations_stay_large Sample.session session_displayed)
    as (s & Hrun & Hanns & _).
  exists s. split; [exact Hrun | exact Hanns].
Defined.

Lemma sky_not_hit (ix iy : Q) :
  contains ix iy Sample.sky = false →
  ∀ b, b ∈ [Sample.sky] → contains ix iy b = false.
Proof. intros Hsky b Hb. apply list_elem_of_singleton in Hb. by subst b. Defined.


Lemma nothing_hit (ix iy : Q) :
  contains ix iy Sample.hat = false → contains ix iy Sample.sky = false →
  ∀ b, b ∈ annotations Sample.selecting → contains ix iy b = false.
Proof.
  intros Hhat Hsky b Hb. cbn in Hb.
  apply elem_of_cons in Hb as [->|Hb]; [exact Hhat|].
  apply list_elem_of_singleton in Hb. by subst b.
Defined.




Lemma committed_wf : wf Sample.committed.
Proof. unfold wf. cbn. lia. Defined.

Lemma commit_then_undo_witness :
  wf Sample.committed ∧ cursor_shown Sample.committed ∧
  ∃ s', undo (updateAnnotationsWithHistory [Sample.sea] Sample.committed) = Some s' ∧
        annotations s' = [Sample.hat; Sample.sky].
Proof.
  split; [exact committed_wf|]. split; [reflexivity|].
  destruct (commit_then_undo [Sample.sea] Sample.committed committed_wf eq_refl)
    as ((s' & Hundo & Hanns & _) & _).
  exists s'. split; [exact Hundo | exact Hanns].
Defined.

Lemma delete_removes_selected_witness :
  selectedId Sample.resizing_sky = Some "p0q8r7s6t" ∧
  Js.truthy "p0q8r7s6t" = true ∧
  ∀ a, a ∈ annotations (deleteSelected Sample.resizing_sky) →
       id a ≠ "p0q8r7s6t".
Proof.
  split; [reflexivity|]. split; [reflexivity|].
  exact (proj1 (delete_removes_selected "p0q8r7s6t" Sample.resizing_sky
                  eq_refl eq_refl)).
Defined.

Lemma undo_all_reaches_empty_witness :
  wf Sample.committed ∧ first_snapshot_empty Sample.committed ∧
  (0 < historyIndex Sample.committed)%nat ∧
  ∃ s', undo_times (historyIndex Sample.committed) Sample.committed = Some s' ∧
        annotations s' = [].
Proof.
  assert (0 < historyIndex Sample.committed)%nat as Hpos by (cbn; lia).
  split; [exact committed_wf|]. split; [reflexivity|]. split; [exact Hpos|].
  destruct (undo_all_reaches_empty Sample.committed committed_wf eq_refl Hpos)
    as (s' & Hrun & _ & Hanns & _).
  exists s'. split; [exact Hrun | exact Hanns].
Defined.

(** A drag from (200, 200) to (580, 560) in image pixels. *)
Lemma drawn_box_is_selected_and_undoable_witness :
  refs_ready Sample.view = true ∧ (0 < getScale Sample.view)%Q ∧
  tool Sample.idle = RectTool ∧ wf Sample.idle ∧ cursor_shown Sample.idle ∧
  (5 < Qabs (imgX Sample.view (List.last [Sample.at_ 300 300] (Sample.at_ 110 120))
             - imgX Sample.view (Sample.at_ 110 120)))%Q ∧
  selectedId (drag Sample.view (Sample.at_ 110 120) [Sample.at_ 300 300]
                "a1b2c3d4e" Sample.idle) = Some "a1b2c3d4e".
Proof.
  assert (0 < getScale Sample.view)%Q as Hscale by q_closed.
  assert (wf Sample.idle) as Hwf by (unfold wf; cbn; lia).
  assert (5 < Qabs (imgX Sample.view
                      (List.last [Sample.at_ 300 300] (Sample.at_ 110 120))
                    - imgX Sample.view (Sample.at_ 110 120)))%Q as Hwide
    by q_closed.
  split; [reflexivity|]. split; [exact Hscale|]. split; [reflexivity|].
  split; [exact Hwf|]. split; [reflexivity|]. split; [exact Hwide|].
  destruct (drawn_box_is_selected_and_undoable Sample.view (Sample.at_ 110 120)
              [Sample.at_ 300 300] "a1b2c3d4e" Sample.idle
              eq_refl Hscale eq_refl Hwf eq_refl Hwide) as (_ & Hsel & _).
  exact Hsel.
Defined.

Lemma drawn_box_appears_under_pointer_witness :
  refs_ready Sample.view = true ∧ (0 < getScale Sample.view)%Q ∧
  tool Sample.idle = RectTool ∧
  (5 < Qabs (imgX Sample.view (List.last [Sample.at_ 300 300] (Sample.at_ 110 120))
             - imgX Sample.view (Sample.at_ 110 120)))%Q ∧
  ∃ a, annotations (drag Sample.view (Sample.at_ 110 120) [Sample.at_ 300 300]
                      "a1b2c3d4e" Sample.idle) = annotations Sample.idle ++ [a] ∧
       (rwidth (Overlay.style Sample.view a) == Qabs (300 - 110))%Q.
Proof.
  assert (0 < getScale Sample.view)%Q as Hscale by q_closed.
  assert (5 < Qabs (imgX Sample.view
                      (List.last [Sample.at_ 300 300] (Sample.at_ 110 120))
                    - imgX Sample.view (Sample.at_ 110 120)))%Q as Hwide
    by q_closed.
  split; [reflexivity|]. split; [exact Hscale|]. split; [reflexivity|].
  split; [exact Hwide|].
  destruct (drawn_box_appears_under_pointer Sample.view (Sample.at_ 110 120)
              [Sample.at_ 300 300] "a1b2c3d4e" Sample.idle
              eq_refl Hscale eq_refl Hwide) as (a & Hanns & _ & _ & Hw & _).
  exists a. split; [exact Hanns | exact Hw].
Defined.

End EditorWitnesses.

Section ServiceWitnesses.

Lemma missing_credential_is_reported_witness :
  App.imageSrc Sample.app = Some "data:image/png;base64,AAAA" ∧
  Js.truthy "data:image/png;base64,AAAA" = true ∧
  Session.generateEdit Sample.browser "" Sample.outage false Sample.app
  = Session.generateEdit Sample.browser "" (λ _, Js.Ok text_then_image) false
      Sample.app.
Proof.
  split; [reflexivity|]. split; [reflexivity|].
  exact (proj1 (missing_credential_is_reported Sample.browser Sample.outage
                  (λ _, Js.Ok text_then_image) false Sample.app
                  "data:image/png;base64,AAAA" eq_refl eq_refl)).
Defined.

Lemma remote_failure_is_reported_witness :
  App.imageSrc Sample.app_with_result = Some "data:image/png;base64,AAAA" ∧
  Js.truthy "data:image/png;base64,AAAA" = true ∧ Js.truthy "key" = true ∧
  App.error
    (Session.generateEdit Sample.browser "key" Sample.outage true
       Sample.app_with_result).1
  = Some "503 Service Unavailable".
Proof.
  split; [reflexivity|]. split; [reflexivity|]. split; [reflexivity|].
  exact (proj1 (proj2
           (remote_failure_is_reported Sample.browser "key" Sample.outage true
              Sample.app_with_result "data:image/png;base64,AAAA"
              "503 Service Unavailable"
              {| App.sent_image := "data:image/png;base64,BBBB";
                 App.sent_instruction := CLEAN_UP_INSTRUCTION "red" |}
              eq_refl eq_refl eq_refl eq_refl eq_refl))).
Defined.

(** The panorama of 8192 by 2048 is scaled onto 4096 by 1024. *)
Lemma downscale_bounds_witness :
  Downscale.readAsDataURL Sample.files Sample.png
  = Some (Some "data:image/png;base64,AAAA") ∧
  Js.truthy "data:image/png;base64,AAAA" = true ∧
  Canvas.loadImage Sample.wide_browser "data:image/png;base64,AAAA"
  = Js.Ok Sample.panorama ∧
  (0 < Downscale.width_of Sample.files Sample.panorama)%N ∧
  (0 < Downscale.height_of Sample.files Sample.panorama)%N ∧
  (Downscale.swidth (Downscale.scaled_canvas Sample.files Sample.panorama)
   ≤ 4096)%N.
Proof.
  assert (0 < Downscale.width_of Sample.files Sample.panorama)%N as Hw
    by (cbn; lia).
  assert (0 < Downscale.height_of Sample.files Sample.panorama)%N as Hh
    by (cbn; lia).
  assert (4096 < Downscale.width_of Sample.files Sample.panorama
          ∨ 4096 < Downscale.height_of Sample.files Sample.panorama)%N as Hbig
    by (left; cbn; lia).
  split; [reflexivity|]. split; [reflexivity|]. split; [reflexivity|].
  split; [exact Hw|]. split; [exact Hh|].
  destruct (proj2 (downscale_bounds Sample.wide_browser Sample.files Sample.png
                     "data:image/png;base64,AAAA" Sample.panorama
                     eq_refl eq_refl eq_refl Hw Hh) Hbig eq_refl)
    as (_ & Hsw & _).
  exact Hsw.
Defined.

Lemma undecodable_file_is_silent_witness :
  String.prefix "image/" (Downscale.ftype Sample.png) = true ∧
  Downscale.readAsDataURL Sample.files Sample.png
  = Some (Some "data:image/png;base64,AAAA") ∧
  Js.truthy "data:image/png;base64,AAAA" = true ∧
  Canvas.loadImage Sample.blind_browser "data:image/png;base64,AAAA"
  = Js.Throw EmptyString ∧
  Session.upload Sample.blind_browser Sample.files Sample.png Sample.app
  = Session.setError None Sample.app.
Proof.
  split; [reflexivity|]. split; [reflexivity|]. split; [reflexivity|].
  split; [reflexivity|].
  exact (undecodable_file_is_silent Sample.blind_browser Sample.files
           Sample.png Sample.app "data:image/png;base64,AAAA" EmptyString
           eq_refl eq_refl eq_refl eq_refl).
Defined.

Lemma request_strips_header_witness :
  has_char "," "data:image/png;base64" = false ∧
  has_char "," "iVBORw0KGgo=" = false ∧ Js.truthy "iVBORw0KGgo=" = true ∧
  Gemini.image_data
    (Gemini.request ("data:image/png;base64" +:+ "," +:+ "iVBORw0KGgo=")
       "remove the hat" "image/png") = "iVBORw0KGgo=".
Proof.
  split; [reflexivity|]. split; [reflexivity|]. split; [reflexivity|].
  exact (proj1 (request_strips_header "data:image/png;base64" "iVBORw0KGgo="
                  "remove the hat" "image/png" eq_refl eq_refl eq_refl)).
Defined.


End ServiceWitnesses.

Section SliderWitnesses.

Lemma divider_tracks_pointer_witness :
  (0 < CompareSlider.width Sample.container)%Q ∧
  (CompareSlider.left Sample.container
   + CompareSlider.width Sample.container <= 700)%Q ∧
  (CompareSlider.handleMove (Some Sample.container) 700 50 == 100)%Q.
Proof.
  assert (0 < CompareSlider.width Sample.container)%Q as Hw by q_closed.
  assert (CompareSlider.left Sample.container
          + CompareSlider.width Sample.container <= 700)%Q as Hright by q_closed.
  split; [exact Hw|]. split; [exact Hright|].
  exact (proj1 (proj2 (divider_tracks_pointer Sample.container 700 700 50 Hw))
           Hright).
Defined.

Lemma swipe_laid_out : laid_out Sample.swipe.
Proof.
  unfold laid_out, Sample.swipe.
  repeat (constructor; [first [exact I | q_closed]|]). constructor.
Defined.

Lemma slider_stays_in_range_witness :
  laid_out Sample.swipe ∧
  (0 <= Slider.position (Slider.run Sample.swipe Slider.initial))%Q ∧
  (Slider.position (Slider.run Sample.swipe Slider.initial) <= 100)%Q.
Proof.
  split; [exact swipe_laid_out|].
  exact (slider_stays_in_range Sample.swipe swipe_laid_out).
Defined.

Lemma hover_no_press : no_press Sample.hover.
Proof.
  unfold no_press, Sample.hover. repeat (constructor; [exact I|]). constructor.
Defined.

Lemma slider_moves_only_while_dragging_witness :
  Slider.isDragging Slider.initial = false ∧ no_press Sample.hover ∧
  Slider.run Sample.hover Slider.initial = Slider.initial.
Proof.
  split; [reflexivity|]. split; [exact hover_no_press|].
  exact (slider_moves_only_while_dragging Sample.hover Slider.initial
           eq_refl hover_no_press).
Defined.

End SliderWitnesses.
